(** * drum: the SPLICE drum-machine decoder (decoder.go)

    A shallow embedding of [DecodeFile] and of the readers it is built from,
    together with the part of the Go standard library they call
    ([io.Reader], [io.ReadFull], [encoding/binary.Read], [bytes.Trim],
    [math.Float32frombits], [make]).

    Go functions that read from the file are computations in a small
    state monad over the reader; a run-time panic is an outcome of its own.
    Go's multiple results [(value, err)] are kept as pairs, because
    [DecodeFile] looks at the value of [readHeader] without testing its
    [err]. *)

From Stdlib Require Import ZArith List Lia Bool String Ascii QArith.
From Stdlib Require Import Strings.Byte.
From Stdlib Require Import Floats.SpecFloat.
Import ListNotations.

Local Open Scope string_scope.
Local Open Scope list_scope.
Local Open Scope Z_scope.

(** ** Go values *)

(** The error values that can reach the caller.  [EOF] and
    [ErrUnexpectedEOF] are package io's, [EIO] stands for any error of the
    device, [ENOENT] for a failed [os.Open], [Errorf] for [fmt.Errorf]. *)
Inductive Error : Type :=
| EOF
| ErrUnexpectedEOF
| EIO
| ENOENT
| Errorf (msg : string).

(** Go's interface type [error]: [None] is [nil]. *)
Definition error : Type := option Error.
Abbreviation nil_error := (@None Error).

(** An error of the underlying reads, as opposed to one built by [fmt.Errorf]. *)
Definition IsIOError (e : Error) : Prop :=
  e = EOF \/ e = ErrUnexpectedEOF \/ e = EIO.

Definition IsFormatError (e : Error) : Prop :=
  exists msg, e = Errorf msg.

(** How a call ends: it returns, it panics, or the bounded unrolling of a
    loop of the model was too short (never the case for [DecodeFile], see
    [DecodeFile_fuel]). *)
Inductive outcome (A : Type) : Type :=
| Returns (a : A)
| Panics (msg : string)
| OutOfFuel.
Arguments Returns {A} a.
Arguments Panics {A} msg.
Arguments OutOfFuel {A}.

(** Fixed-width integers are [Z] with the wrap-around written out. *)
Definition unsigned_of_byte (b : byte) : Z := Z.of_N (Byte.to_N b).

Definition signed (w : Z) (u : Z) : Z :=
  if u <? 2 ^ (w - 1) then u else u - 2 ^ w.

Definition wrap64 (z : Z) : Z := signed 64 (z mod 2 ^ 64).
Definition sub64 (a b : Z) : Z := wrap64 (a - b).

Definition min_int64 : Z := - 2 ^ 63.
Definition max_int64 : Z := 2 ^ 63 - 1.

(** [make([]byte, n)]: zero bytes. *)
Definition zeros (n : nat) : list byte := repeat x00 n.

(** [a[i] = v] on an array held as a list; out of range it is not called. *)
Fixpoint store {A : Type} (i : nat) (v : A) (a : list A) : list A :=
  match a, i with
  | [], _ => []
  | _ :: a', O => v :: a'
  | x :: a', S i' => x :: store i' v a'
  end.

(** ** package io *)
Module io.

(** What the file will deliver.  [Data c]: the bytes [c] are available and a
    single [Read] does not go past their end (a regular file is one
    [Data]; a pipe or a terminal delivers several).  [Fault]: the next
    [Read] fails with a device error.  The end of the script is end of file. *)
Inductive event : Type :=
| Data (c : list byte)
| Fault.

Definition Reader : Type := list event.

(** The bytes still to come. *)
Fixpoint contents (r : Reader) : list byte :=
  match r with
  | [] => []
  | Data c :: r' => c ++ contents r'
  | Fault :: r' => contents r'
  end.

Definition available (r : Reader) : nat := List.length (contents r).

Definition regular (bs : list byte) : Reader := [Data bs].

(** A computation on the open file. *)
Definition Go (A : Type) : Type := Reader -> outcome (A * Reader).

Definition ret {A} (a : A) : Go A := fun r => Returns (a, r).

Definition bind {A B} (m : Go A) (k : A -> Go B) : Go B :=
  fun r =>
    match m r with
    | Returns (a, r') => k a r'
    | Panics msg => Panics msg
    | OutOfFuel => OutOfFuel
    end.

Definition panic {A} (msg : string) : Go A := fun _ => Panics msg.

(** [n, err := r.Read(buf)]: reads up to [len(buf)] bytes into [buf];
    the result is the buffer afterwards, [n] and [err].  As for an
    [*os.File]: nothing is read for an empty buffer, at most what is
    available now is read, and [0, EOF] is returned at end of file. *)
Fixpoint Read (buf : list byte) (r : Reader) {struct r}
  : outcome ((list byte * nat * error) * Reader) :=
  match buf with
  | [] => Returns (([], O, nil_error), r)
  | _ :: _ =>
      match r with
      | [] => Returns ((buf, O, Some EOF), [])
      | Fault :: r' => Returns ((buf, O, Some EIO), r')
      | Data [] :: r' => Read buf r'
      | Data c :: r' =>
          let got := firstn (List.length buf) c in
          Returns ((got ++ skipn (List.length got) buf, List.length got, nil_error),
                   Data (skipn (List.length buf) c) :: r')
      end
  end.

(** [io.ReadFull(r, buf)]: reads exactly [len(buf)] bytes, calling [Read]
    until the buffer is full or a call fails.  The error is [EOF] only if
    no byte was read; an end of file after some bytes is
    [ErrUnexpectedEOF]. *)
Fixpoint ReadFull (buf : list byte) (r : Reader) {struct r}
  : outcome ((list byte * nat * error) * Reader) :=
  match buf with
  | [] => Returns (([], O, nil_error), r)
  | _ :: _ =>
      match r with
      | [] => Returns ((buf, O, Some EOF), [])
      | Fault :: r' => Returns ((buf, O, Some EIO), r')
      | Data c :: r' =>
          if (List.length c <? List.length buf)%nat then
            match ReadFull (skipn (List.length c) buf) r' with
            | Returns ((rest, n, err), r'') =>
                Returns ((c ++ rest, (List.length c + n)%nat,
                          match err with
                          | Some EOF =>
                              if (0 <? List.length c + n)%nat
                              then Some ErrUnexpectedEOF else Some EOF
                          | _ => err
                          end), r'')
            | Panics msg => Panics msg
            | OutOfFuel => OutOfFuel
            end
          else
            Returns ((firstn (List.length buf) c, List.length buf, nil_error),
                     Data (skipn (List.length buf) c) :: r')
      end
  end.

End io.

Notation "x <- m ;; k" := (io.bind m (fun x => k))
  (at level 61, m at next level, right associativity).
Notation "' pat <- m ;; k" :=
  (io.bind m (fun x => match x with pat => k end))
  (at level 61, pat pattern, m at next level, right associativity).

(** ** package bytes *)
Module bytes.

(** [for len(s) > 0 && s[0] == c { s = s[1:] }] *)
Fixpoint trimLeftByte (s : list byte) (c : byte) : list byte :=
  match s with
  | [] => []
  | b :: s' => if Byte.eqb b c then trimLeftByte s' c else s
  end.

(** [for len(s) > 0 && s[len(s)-1] == c { s = s[:len(s)-1] }] *)
Fixpoint trimRightByte (s : list byte) (c : byte) : list byte :=
  match s with
  | [] => []
  | b :: s' =>
      match trimRightByte s' c with
      | [] => if Byte.eqb b c then [] else [b]
      | t => b :: t
      end
  end.

(** [bytes.Trim(s, cutset)] for a cutset of one ASCII byte: leading and
    trailing occurrences of the byte are sliced off. *)
Definition Trim (s : list byte) (c : byte) : list byte :=
  trimLeftByte (trimRightByte s c) c.

End bytes.

(** ** package math *)
Module math.

Definition float32 : Type := spec_float.

(** [math.Float32frombits]: the IEEE 754 binary32 value of a 32-bit
    pattern: sign bit 31, exponent bits 30..23, fraction bits 22..0. *)
Definition Float32frombits (u : Z) : float32 :=
  let sign := Z.testbit u 31 in
  let e := Z.land (Z.shiftr u 23) 255 in
  let m := Z.land u (2 ^ 23 - 1) in
  if e =? 0 then
    if m =? 0 then S754_zero sign
    else S754_finite sign (Z.to_pos m) (-149)
  else if e =? 255 then
    if m =? 0 then S754_infinity sign else S754_nan
  else S754_finite sign (Z.to_pos (m + 2 ^ 23)) (e - 150).

(** The number a finite float stands for. *)
Definition value (f : float32) : option Q :=
  match f with
  | S754_zero _ => Some (0 # 1)
  | S754_finite s m e =>
      let q := (inject_Z (Z.pos m) * Qpower (2 # 1) e)%Q in
      Some (Qred (if s then Qopp q else q))
  | _ => None
  end.

End math.

(** ** package encoding/binary *)
Module binary.

Inductive ByteOrder : Type := BigEndian | LittleEndian.

(** The fixed-size kinds [DecodeFile] reads. *)
Inductive kind : Type := Int8 | Int32 | Int64 | Float32.

Definition size (k : kind) : nat :=
  match k with
  | Int8 => 1
  | Int32 => 4
  | Int64 => 8
  | Float32 => 4
  end%nat.

Fixpoint littleEndian (bs : list byte) : Z :=
  match bs with
  | [] => 0
  | b :: bs' => unsigned_of_byte b + 256 * littleEndian bs'
  end.

Definition Uint (order : ByteOrder) (bs : list byte) : Z :=
  match order with
  | LittleEndian => littleEndian bs
  | BigEndian => littleEndian (rev bs)
  end.

(** The value stored through the pointer: the integer for the integer
    kinds, the bit pattern for [Float32]. *)
Definition decode (order : ByteOrder) (k : kind) (bs : list byte) : Z :=
  match k with
  | Int8 => signed 8 (Uint order bs)
  | Int32 => signed 32 (Uint order bs)
  | Int64 => signed 64 (Uint order bs)
  | Float32 => Uint order bs
  end.

(** [err := binary.Read(r, order, &data)] with [data] a zero-initialised
    variable of kind [k]: the pair is [data] afterwards and [err]. *)
Definition Read (order : ByteOrder) (k : kind) : io.Go (Z * error) :=
  ' (bs, _, err) <- io.ReadFull (zeros (size k)) ;;
  match err with
  | Some e => io.ret (0, Some e)
  | None => io.ret (decode order k bs, nil_error)
  end.

End binary.

(** [make([]byte, n)] for a length known at run time only. *)
Definition make (n : Z) : io.Go (list byte) :=
  if n <? 0 then io.panic "runtime error: makeslice: len out of range"
  else io.ret (zeros (Z.to_nat n)).

(** ** package os *)
Module os.

(** The files that can be opened, by path. *)
Definition FileSystem : Type := string -> option io.Reader.

Definition Open (fs : FileSystem) (path : string) : option io.Reader * error :=
  match fs path with
  | Some f => (Some f, nil_error)
  | None => (None, Some ENOENT)
  end.

End os.

(** ** package drum *)

Record Track : Type := mkTrack {
  ID : Z;
  Name : string;
  Steps : list bool
}.

Record Pattern : Type := mkPattern {
  Version : string;
  Tempo : math.float32;
  Tracks : list Track
}.

Definition readHeader : io.Go (string * error) :=
  ' (buf, _, err) <- io.Read (zeros 6) ;;
  match err with
  | Some e => io.ret ("", Some e)
  | None => io.ret (string_of_list_byte buf, nil_error)
  end.

Definition readContentSize : io.Go (Z * error) :=
  ' (size, err) <- binary.Read binary.BigEndian binary.Int64 ;;
  match err with
  | Some e => io.ret (0, Some e)
  | None => io.ret (size, nil_error)
  end.

Definition readVersion : io.Go (string * error) :=
  ' (buf, _, err) <- io.Read (zeros 32) ;;
  match err with
  | Some e => io.ret ("", Some e)
  | None => io.ret (string_of_list_byte (bytes.Trim buf x00), nil_error)
  end.

Definition readTempo : io.Go (math.float32 * error) :=
  ' (tempo, err) <- binary.Read binary.LittleEndian binary.Float32 ;;
  match err with
  | Some e => io.ret (S754_zero false, Some e)
  | None => io.ret (math.Float32frombits tempo, nil_error)
  end.

(** [fmt.Errorf("Invalid file header, expected SPLICE, got %s", header)] *)
Definition invalid_header (header : string) : Error :=
  Errorf (String.append "Invalid file header, expected SPLICE, got " header).

(** [for i := 0; i < 16; i++ { ... steps[i] = (buf > 0) }] with [n] rounds
    to go; an error leaves the function at once. *)
Fixpoint stepsLoop (n i : nat) (steps : list bool) : io.Go (list bool * error) :=
  match n with
  | O => io.ret (steps, nil_error)
  | S n' =>
      ' (buf, err) <- binary.Read binary.LittleEndian binary.Int8 ;;
      match err with
      | Some e => io.ret (steps, Some e)
      | None => stepsLoop n' (S i) (store i (0 <? buf) steps)
      end
  end.

(** [readTrack(file, &size)]: the results and [*size] afterwards.  The
    track is [nil] with an error; [int(id)] keeps the value of the [int32];
    both results of the [Read] of the name are dropped, as in line 136. *)
Definition readTrack (size : Z) : io.Go (option Track * error * Z) :=
  ' (id, err) <- binary.Read binary.LittleEndian binary.Int32 ;;
  match err with
  | Some e => io.ret (None, Some e, size)
  | None =>
      let size := sub64 size 4 in
      ' (nameLength, err) <- binary.Read binary.LittleEndian binary.Int8 ;;
      match err with
      | Some e => io.ret (None, Some e, size)
      | None =>
          let size := sub64 size 1 in
          buf <- make nameLength ;;
          ' (buf, _, _) <- io.Read buf ;;
          let name := string_of_list_byte buf in
          let size := sub64 size nameLength in
          ' (steps, err) <- stepsLoop 16 0 (repeat false 16) ;;
          match err with
          | Some e => io.ret (None, Some e, size)
          | None =>
              let size := sub64 size 16 in
              io.ret (Some (mkTrack id name steps), nil_error, size)
          end
      end
  end.

(** [for size > 0 { track, err := readTrack(f, &size); ... }], unrolled at
    most [fuel] times.  [readTrack] never returns [nil, nil]
    ([readTrack_spec]), so the last case of the match does not arise. *)
Fixpoint trackLoop (fuel : nat) (size : Z) (tracks : list Track)
  : io.Go (list Track * error * Z) :=
  if 0 <? size then
    match fuel with
    | O => fun _ => OutOfFuel
    | S fuel' =>
        ' (track, err, size) <- readTrack size ;;
        match err, track with
        | Some e, _ => io.ret (tracks, Some e, size)
        | None, Some track => trackLoop fuel' size (tracks ++ [track])
        | None, None => io.ret (tracks, nil_error, size)
        end
    end
  else io.ret (tracks, nil_error, size).

(** The body of [DecodeFile] once the file is open, with the loop unrolled
    at most [fuel] times. *)
Definition decodeFuel (fuel : nat) : io.Go (option Pattern * error) :=
  ' (header, err) <- readHeader ;;
  if negb (String.eqb header "SPLICE") then
    io.ret (None, Some (invalid_header header))
  else
    ' (size, err) <- readContentSize ;;
    match err with
    | Some e => io.ret (None, Some e)
    | None =>
        ' (version, err) <- readVersion ;;
        match err with
        | Some e => io.ret (None, Some e)
        | None =>
            let size := sub64 size 32 in
            ' (tempo, err) <- readTempo ;;
            match err with
            | Some e => io.ret (None, Some e)
            | None =>
                let size := sub64 size 4 in
                ' (tracks, err, _) <- trackLoop fuel size [] ;;
                match err with
                | Some e => io.ret (None, Some e)
                | None => io.ret (Some (mkPattern version tempo tracks), nil_error)
                end
            end
        end
    end.

(** Every round of the loop that goes on has read at least one byte, so one
    round more than there are bytes is enough. *)
Definition decode : io.Go (option Pattern * error) :=
  fun file => decodeFuel (S (io.available file)) file.

(** [DecodeFile(path)]: the pattern is [nil] with an error.  The file is
    closed on the way out, which does not change the results. *)
Definition DecodeFile (fs : os.FileSystem) (path : string)
  : outcome (option Pattern * error) :=
  match os.Open fs path with
  | (Some f, None) =>
      match decode f with
      | Returns (result, _) => Returns result
      | Panics msg => Panics msg
      | OutOfFuel => OutOfFuel
      end
  | (_, err) => Returns (None, err)
  end.

(** The flag line 148 stores for a step byte: the byte read as an [int8] is
    compared with zero. *)
Definition stepActive (b : byte) : bool :=
  0 <? binary.decode binary.LittleEndian binary.Int8 [b].

(** The counter after a record with a name of [n] bytes: lines 126, 133, 138
    and 150 of [readTrack]. *)
Definition afterRecord (size n : Z) : Z :=
  sub64 (sub64 (sub64 (sub64 size 4) 1) n) 16.

(** ** The files of the statements *)

Definition signature : list byte := list_byte_of_string "SPLICE".

(** Payload size 61, version 0.808-alpha, tempo 120, one track "kick". *)
Definition kick_file : list byte :=
  signature
  ++ [x00; x00; x00; x00; x00; x00; x00; x3d]
  ++ list_byte_of_string "0.808-alpha" ++ zeros 21
  ++ [x00; x00; xf0; x42]
  ++ [x00; x00; x00; x00] ++ [x04] ++ list_byte_of_string "kick"
  ++ [x01; x00; x00; x00; x01; x00; x00; x00;
      x01; x00; x00; x00; x01; x00; x00; x00].

Definition kick_steps : list bool :=
  [true; false; false; false; true; false; false; false;
   true; false; false; false; true; false; false; false].

(** The same file with the name length 0xff, that is -1 as an [int8]. *)
Definition negative_name_file : list byte :=
  firstn 54 kick_file ++ [xff] ++ skipn 55 kick_file.

(** The bytes of [kick_file] from a source that delivers them in two
    pieces, the first one ending in the middle of the track name. *)
Definition kick_pipe : io.Reader :=
  [io.Data (firstn 57 kick_file); io.Data (skipn 57 kick_file)].

(** A version block that starts with a zero byte: 00 'a' 00 'b' 00 ... *)
Definition leading_zero_version : list byte :=
  [x00; x61; x00; x62] ++ zeros 28.

(** The version text as the specification words it: only the zero bytes at
    the end of the block are removed. *)
Fixpoint stripTrailingZeros (block : list byte) : list byte :=
  match block with
  | [] => []
  | b :: block' =>
      match stripTrailingZeros block', b with
      | [], x00 => []
      | t, _ => b :: t
      end
  end.

(** Declared size 37: one byte for tracks, and a record of 25 follows. *)
Definition overrun_file : list byte :=
  firstn 13 kick_file ++ [x25] ++ skipn 14 kick_file.

(** Declared size 80 00 00 00 00 00 00 00, the least int64; the file has
    the signature, the version block and the tempo, and ends there. *)
Definition least_size_file : list byte :=
  signature
  ++ [x80; x00; x00; x00; x00; x00; x00; x00]
  ++ list_byte_of_string "0.808-alpha" ++ zeros 21
  ++ [x00; x00; xf0; x42].

(** The bytes [input] from a source that delivers them in two pieces, the
    first one of [k] bytes; [kick_pipe] is [kick_file] cut after 57. *)
Definition inTwoPieces (k : nat) (input : list byte) : io.Reader :=
  [io.Data (firstn k input); io.Data (skipn k input)].

(** A file system with one file. *)
Definition single_file (name : string) (f : io.Reader) : os.FileSystem :=
  fun path => if String.eqb path name then Some f else None.


(** ** The layout of the doc comment of [DecodeFile], written out

    The package has no encoder.  These functions put the fields at the byte
    offsets that lines 14 to 24 give, so that the files that decode can be
    described. *)

Definition byte_of_Z (z : Z) : byte :=
  match Byte.of_N (Z.to_N (z mod 256)) with
  | Some b => b
  | None => x00
  end.

Fixpoint putLittleEndian (n : nat) (v : Z) : list byte :=
  match n with
  | O => []
  | S n' => byte_of_Z v :: putLittleEndian n' (v / 256)
  end.

Definition putUint (order : binary.ByteOrder) (n : nat) (v : Z) : list byte :=
  match order with
  | binary.LittleEndian => putLittleEndian n v
  | binary.BigEndian => rev (putLittleEndian n v)
  end.

(** "steps 00 or 01" *)
Definition stepByte (s : bool) : byte := if s then x01 else x00.

(** The bytes of one track record: 4 + 1 + length of the name + 16. *)
Definition recordLength (t : Track) : Z :=
  4 + 1 + Z.of_nat (String.length (Name t)) + 16.

Fixpoint recordsLength (tracks : list Track) : Z :=
  match tracks with
  | [] => 0
  | t :: tracks' => recordLength t + recordsLength tracks'
  end.

Definition layoutTrack (t : Track) : list byte :=
  putUint binary.LittleEndian 4 (ID t)
  ++ [byte_of_Z (Z.of_nat (String.length (Name t)))]
  ++ list_byte_of_string (Name t)
  ++ map stepByte (Steps t).

Definition layoutVersion (version : string) : list byte :=
  list_byte_of_string version ++ zeros (32 - String.length version).

(** [tempo] is the bit pattern of the float32. *)
Definition layoutFile (declared : Z) (version : string) (tempo : Z)
  (tracks : list Track) : list byte :=
  signature
  ++ putUint binary.BigEndian 8 declared
  ++ layoutVersion version
  ++ putUint binary.LittleEndian 4 tempo
  ++ List.concat (map layoutTrack tracks).

(** What a track record can hold: an int32, a name of at most 127 bytes (the
    length is an int8), sixteen steps. *)
Definition wellFormedTrack (t : Track) : Prop :=
  - 2 ^ 31 <= ID t < 2 ^ 31
  /\ (String.length (Name t) <= 127)%nat
  /\ List.length (Steps t) = 16%nat.

(** What the version block can hold and give back: at most 32 bytes, no
    zero byte at either end. *)
Definition wellFormedVersion (version : string) : Prop :=
  (String.length version <= 32)%nat
  /\ hd_error (list_byte_of_string version) <> Some x00
  /\ hd_error (rev (list_byte_of_string version)) <> Some x00.

(** The counter is positive before each of the records and zero or negative
    after the last one. *)
Fixpoint counterSelects (counter : Z) (tracks : list Track) : Prop :=
  match tracks with
  | [] => counter <= 0
  | t :: tracks' =>
      0 < counter /\ counterSelects (counter - recordLength t) tracks'
  end.

(** [records] is the bytes of whole track records, one after the other,
    that hold [tracks]: four ID bytes, a name length byte that is not
    negative as an int8, that many name bytes and sixteen step bytes each. *)
Fixpoint holdsRecords (tracks : list Track) (records : list byte) : Prop :=
  match tracks with
  | [] => records = []
  | t :: tracks' =>
      exists idb nb name stepBytes records',
        records = idb ++ nb :: name ++ stepBytes ++ records'
        /\ List.length idb = 4%nat
        /\ binary.decode binary.LittleEndian binary.Int8 [nb]
           = Z.of_nat (List.length name)
        /\ List.length stepBytes = 16%nat
        /\ ID t = binary.decode binary.LittleEndian binary.Int32 idb
        /\ Name t = string_of_list_byte name
        /\ Steps t = map stepActive stepBytes
        /\ holdsRecords tracks' records'
  end.

(** No [Fault] in what the file will deliver. *)
Fixpoint faultFree (r : io.Reader) : bool :=
  match r with
  | [] => true
  | io.Data _ :: r' => faultFree r'
  | io.Fault :: _ => false
  end.

(** The error of [io.ReadFull] at the end of the file after [k] bytes. *)
Definition eofAfter (k : nat) : Error :=
  if (0 <? k)%nat then ErrUnexpectedEOF else EOF.

(** * Facts about the library model *)

Ltac splits := repeat match goal with |- _ /\ _ => split end.

Ltac io_error :=
  match goal with
  | |- IsIOError _ => unfold IsIOError; auto
  end.

Section Readers.

Lemma zeros_length n : List.length (zeros n) = n.
Proof. apply repeat_length. Qed.

(** [ReadFull] always returns; the bytes it stored are the next bytes of the
    file, and without an error the buffer is full. *)
Lemma ReadFull_returns (r : io.Reader) :
  forall buf, exists bs n err r',
    io.ReadFull buf r = Returns ((bs, n, err), r')
    /\ List.length bs = List.length buf
    /\ (n <= List.length buf)%nat
    /\ io.contents r = firstn n bs ++ io.contents r'
    /\ (err = None -> n = List.length buf)
    /\ (forall e, err = Some e -> IsIOError e /\ (n < List.length buf)%nat).
Proof.
  induction r as [|ev r IH]; intros buf.
  - destruct buf as [|b buf].
    + exists [], O, None, []. simpl; splits; auto; discriminate.
    + exists (b :: buf), O, (Some EOF), []. simpl.
      splits; auto; try discriminate; try lia.
      intros e He; inversion He; subst; split; [io_error | lia].
  - destruct buf as [|b buf].
    + exists [], O, None, (ev :: r). simpl; splits; auto; discriminate.
    + destruct ev as [c|].
      * cbn [io.ReadFull].
        destruct (Nat.ltb_spec (List.length c) (List.length (b :: buf))) as [Hlt|Hge].
        -- destruct (IH (skipn (List.length c) (b :: buf)))
             as (rest & n & err & r' & Heq & Hlen & Hn & Hc & Hok & Herr).
           rewrite Heq.
           rewrite length_skipn in Hlen, Hn, Hok, Herr.
           eexists _, _, _, _; split; [reflexivity|].
           splits.
           ++ rewrite length_app, Hlen. lia.
           ++ lia.
           ++ cbn [io.contents]. rewrite Hc.
              rewrite firstn_app, (firstn_all2 (n := List.length c + n) c) by lia.
              replace (List.length c + n - List.length c)%nat with n by lia.
              now rewrite <- app_assoc.
           ++ intros He. destruct err as [[]|]; try discriminate.
              ** destruct (0 <? List.length c + n)%nat; discriminate.
              ** specialize (Hok eq_refl). lia.
           ++ intros e He. destruct err as [e'|]; [|discriminate].
              destruct (Herr e' eq_refl) as [Hio Hl].
              split; [|lia].
              destruct e'; cbv beta iota in He;
                try destruct (0 <? List.length c + n)%nat;
                injection He as <-; solve [io_error | exact Hio].
        -- eexists _, _, _, _; split; [reflexivity|].
           splits; try discriminate.
           ++ rewrite length_firstn. lia.
           ++ lia.
           ++ cbn [io.contents].
              rewrite firstn_firstn, Nat.min_id.
              now rewrite app_assoc, firstn_skipn.
           ++ reflexivity.
      * exists (b :: buf), O, (Some EIO), r. simpl.
        splits; auto; try discriminate; try lia.
        intros e He; inversion He; subst; split; [io_error | lia].
Qed.

(** A single [Read] returns too, but possibly with fewer bytes; on an
    error it has stored nothing. *)
Lemma Read_returns (r : io.Reader) :
  forall buf, exists bs n err r',
    io.Read buf r = Returns ((bs, n, err), r')
    /\ List.length bs = List.length buf
    /\ (n <= List.length buf)%nat
    /\ io.contents r = firstn n bs ++ io.contents r'
    /\ skipn n bs = skipn n buf
    /\ (err = None -> buf <> [] -> (0 < n)%nat)
    /\ (forall e, err = Some e -> IsIOError e /\ n = O /\ bs = buf).
Proof.
  induction r as [|ev r IH]; intros buf.
  - destruct buf as [|b buf].
    + exists [], O, None, []. simpl; splits; auto; try discriminate.
      intros _ H; now elim H.
    + exists (b :: buf), O, (Some EOF), []. simpl.
      splits; auto; try discriminate; try lia.
      intros e He; inversion He; subst; splits; auto; io_error.
  - destruct buf as [|b buf].
    + exists [], O, None, (ev :: r). simpl; splits; auto; try discriminate.
      intros _ H; now elim H.
    + destruct ev as [[|c0 c]|].
      * destruct (IH (b :: buf))
          as (bs & n & err & r' & Heq & Hlen & Hn & Hc & Hsk & Hok & Herr).
        exists bs, n, err, r'. cbn [io.Read io.contents app].
        splits; auto.
      * cbn [io.Read].
        eexists _, _, _, _; split; [reflexivity|].
        set (k := List.length (b :: buf)).
        set (got := firstn k (c0 :: c)).
        assert (Hg : (List.length got <= k)%nat)
          by (subst got; rewrite length_firstn; lia).
        assert (Hg0 : (0 < List.length got)%nat)
          by (subst got k; simpl; lia).
        splits.
        -- rewrite length_app, length_skipn. fold k. lia.
        -- exact Hg.
        -- cbn [io.contents].
           rewrite firstn_app, firstn_all, Nat.sub_diag, firstn_O, app_nil_r.
           subst got. now rewrite app_assoc, firstn_skipn.
        -- now rewrite skipn_app, skipn_all, Nat.sub_diag.
        -- intros _ _. exact Hg0.
        -- intros e He. discriminate He.
      * exists (b :: buf), O, (Some EIO), r. simpl.
        splits; auto; try discriminate; try lia.
        intros e He; inversion He; subst; splits; auto; io_error.
Qed.

Lemma skipn_zeros (n k : nat) : skipn n (zeros k) = zeros (k - n).
Proof.
  unfold zeros. revert n; induction k as [|k IH]; intros [|n]; simpl; auto.
Qed.

Lemma available_app_le (r r' : io.Reader) (pre : list byte) :
  io.contents r = pre ++ io.contents r' ->
  io.available r = (List.length pre + io.available r')%nat.
Proof.
  unfold io.available. intros ->. now rewrite length_app.
Qed.

(** [binary.Read] returns a decoded value of exactly [size k] bytes, or an
    error of the reader. *)
Lemma binary_Read_returns order k (r : io.Reader) :
  exists v err r',
    binary.Read order k r = Returns ((v, err), r')
    /\ (err = None ->
        exists bs, List.length bs = binary.size k
                   /\ io.contents r = bs ++ io.contents r'
                   /\ v = binary.decode order k bs)
    /\ (forall e, err = Some e -> IsIOError e /\ v = 0)
    /\ (io.available r' <= io.available r)%nat.
Proof.
  unfold binary.Read, io.bind.
  destruct (ReadFull_returns r (zeros (binary.size k)))
    as (bs & n & err & r' & Heq & Hlen & Hn & Hc & Hok & Herr).
  rewrite Heq. rewrite zeros_length in *.
  assert (Hav : (io.available r' <= io.available r)%nat)
    by (rewrite (available_app_le _ _ _ Hc); lia).
  destruct err as [e|]; unfold io.ret.
  - eexists _, _, _; split; [reflexivity|]. splits; try discriminate; auto.
    intros e' He; inversion He; subst. split; [apply (Herr e' eq_refl)|reflexivity].
  - eexists _, _, _; split; [reflexivity|]. splits; try discriminate; auto.
    intros _. exists bs. specialize (Hok eq_refl). subst n.
    rewrite <- Hlen, firstn_all in Hc. auto.
Qed.

End Readers.

(** * Facts about the readers of package drum *)

Section Arrays.

Context {A : Type}.

Lemma store_length (i : nat) (v : A) (a : list A) :
  List.length (store i v a) = List.length a.
Proof.
  revert i; induction a as [|x a IH]; intros [|i]; simpl; auto.
Qed.

Lemma store_firstn (i : nat) (v : A) (a : list A) :
  (i < List.length a)%nat ->
  firstn (S i) (store i v a) = firstn i a ++ [v].
Proof.
  revert i; induction a as [|x a IH]; intros [|i] Hi; simpl in *; try lia.
  - reflexivity.
  - f_equal. apply IH. lia.
Qed.

Lemma store_skipn (i k : nat) (v : A) (a : list A) :
  (i < k)%nat -> skipn k (store i v a) = skipn k a.
Proof.
  revert i k; induction a as [|x a IH]; intros [|i] [|k] Hi; simpl; try lia; auto.
  apply IH. lia.
Qed.

End Arrays.

Section Steps.

(** The sixteen rounds store the flags of the next sixteen bytes, in order. *)
Lemma stepsLoop_returns (n : nat) :
  forall i steps r,
    (i + n <= List.length steps)%nat ->
    exists steps' err r',
      stepsLoop n i steps r = Returns ((steps', err), r')
      /\ (io.available r' <= io.available r)%nat
      /\ (forall e, err = Some e -> IsIOError e)
      /\ (err = None ->
          exists bs, List.length bs = n
                     /\ io.contents r = bs ++ io.contents r'
                     /\ steps' = firstn i steps ++ map stepActive bs
                                   ++ skipn (i + n) steps).
Proof.
  induction n as [|n IH]; intros i steps r Hi.
  - exists steps, None, r. cbn. splits; auto; try discriminate.
    intros _. exists []. splits; auto.
    cbn. now rewrite Nat.add_0_r, firstn_skipn.
  - cbn [stepsLoop]. unfold io.bind.
    destruct (binary_Read_returns binary.LittleEndian binary.Int8 r)
      as (v & err & r1 & Heq & Hok & Herr & Hav).
    rewrite Heq. destruct err as [e|].
    + exists steps, (Some e), r1. cbn. splits; auto; try discriminate.
      intros e' He; inversion He; subst. apply (Herr e' eq_refl).
    + destruct (Hok eq_refl) as (bs1 & Hl1 & Hc1 & Hv).
      destruct bs1 as [|b [|? ?]]; try discriminate Hl1.
      destruct (IH (S i) (store i (0 <? v) steps) r1)
        as (steps' & err' & r' & Heq' & Hav' & Herr' & Hok').
      { rewrite store_length. lia. }
      exists steps', err', r'. splits; auto; try lia.
      intros He. destruct (Hok' He) as (bs & Hl & Hc & Hs).
      exists (b :: bs). splits.
      * simpl; lia.
      * rewrite Hc1, Hc. reflexivity.
      * rewrite Hs, store_firstn, store_skipn by lia.
        subst v. fold (stepActive b). cbn [map].
        rewrite <- app_assoc. cbn [app].
        now replace (S i + n)%nat with (i + S n)%nat by lia.
Qed.

End Steps.

Section TrackRecord.

(** The three ways [readTrack] ends: a panic on a negative name length,
    an error of one of the checked reads, or a track.  [got] are the bytes
    the unchecked [Read] of the name obtained. *)
Lemma readTrack_spec (size : Z) (r : io.Reader) :
  (exists idb nb r2,
      readTrack size r = Panics "runtime error: makeslice: len out of range"
      /\ List.length idb = 4%nat
      /\ io.contents r = idb ++ nb :: io.contents r2
      /\ binary.decode binary.LittleEndian binary.Int8 [nb] < 0)
  \/ (exists e size' r',
        readTrack size r = Returns ((None, Some e, size'), r')
        /\ IsIOError e
        /\ (io.available r' <= io.available r)%nat)
  \/ (exists idb nb got stepBytes r',
        let n := binary.decode binary.LittleEndian binary.Int8 [nb] in
        readTrack size r =
          Returns ((Some (mkTrack
                            (binary.decode binary.LittleEndian binary.Int32 idb)
                            (string_of_list_byte
                               (got ++ zeros (Z.to_nat n - List.length got)))
                            (map stepActive stepBytes)),
                    nil_error, afterRecord size n), r')
        /\ List.length idb = 4%nat
        /\ 0 <= n
        /\ (List.length got <= Z.to_nat n)%nat
        /\ List.length stepBytes = 16%nat
        /\ io.contents r = idb ++ nb :: got ++ stepBytes ++ io.contents r').
Proof.
  unfold readTrack, io.bind.
  destruct (binary_Read_returns binary.LittleEndian binary.Int32 r)
    as (id & err & r1 & Heq1 & Hok1 & Herr1 & Hav1).
  rewrite Heq1. destruct err as [e|].
  { right; left. exists e, size, r1. cbn. splits; auto.
    apply (Herr1 e eq_refl). }
  destruct (Hok1 eq_refl) as (idb & Hlid & Hc1 & Hid).
  destruct (binary_Read_returns binary.LittleEndian binary.Int8 r1)
    as (nl & err & r2 & Heq2 & Hok2 & Herr2 & Hav2).
  rewrite Heq2. destruct err as [e|].
  { right; left. exists e, (sub64 size 4), r2. cbn. splits; auto; try lia.
    apply (Herr2 e eq_refl). }
  destruct (Hok2 eq_refl) as (nlb & Hlnl & Hc2 & Hnl).
  destruct nlb as [|nb [|? ?]]; try discriminate Hlnl.
  unfold make. destruct (Z.ltb_spec nl 0) as [Hneg|Hpos].
  { left. exists idb, nb, r2. splits; auto.
    - rewrite Hc1, Hc2. reflexivity.
    - now rewrite <- Hnl. }
  cbn [io.ret].
  destruct (Read_returns r2 (zeros (Z.to_nat nl)))
    as (buf & k & err & r3 & Heq3 & Hlen3 & Hk3 & Hc3 & Hsk3 & _ & _).
  rewrite Heq3. rewrite zeros_length in *.
  destruct (stepsLoop_returns 16 0 (repeat false 16) r3)
    as (steps & err' & r4 & Heq4 & Hav4 & Herr4 & Hok4).
  { rewrite repeat_length. lia. }
  rewrite Heq4. destruct err' as [e|].
  { right; left. eexists e, _, r4. split; [reflexivity|]. split.
    - apply (Herr4 e eq_refl).
    - rewrite (available_app_le _ _ _ Hc3) in Hav2. lia. }
  destruct (Hok4 eq_refl) as (stepBytes & Hls & Hc4 & Hsteps).
  right; right. exists idb, nb, (firstn k buf), stepBytes, r4.
  cbn zeta. rewrite <- Hnl.
  assert (Hbuf : buf = firstn k buf ++ zeros (Z.to_nat nl - List.length (firstn k buf))).
  { rewrite length_firstn, Nat.min_l by lia.
    rewrite <- skipn_zeros, <- Hsk3. now rewrite firstn_skipn. }
  splits.
  - unfold io.ret. rewrite <- Hbuf, <- Hid. subst steps.
    cbn [firstn app]. rewrite skipn_all2 by (rewrite repeat_length; lia).
    now rewrite app_nil_r.
  - exact Hlid.
  - exact Hpos.
  - rewrite length_firstn. lia.
  - exact Hls.
  - rewrite Hc1, Hc2, Hc3, Hc4. cbn [app]. reflexivity.
Qed.

(** A record that was read took at least its 21 fixed bytes from the file. *)
Lemma readTrack_progress size r t err size' r' :
  readTrack size r = Returns ((Some t, err, size'), r') ->
  (io.available r' + 21 <= io.available r)%nat.
Proof.
  intros H.
  destruct (readTrack_spec size r)
    as [(idb & nb & r2 & Heq & _)
       |[(e & sz & r2 & Heq & _)
        |(idb & nb & got & stepBytes & r2 & Heq & Hid & _ & _ & Hst & Hc)]];
    rewrite Heq in H; try discriminate.
  injection H as _ _ _ <-.
  unfold io.available. rewrite Hc.
  cbn [List.length]. rewrite !length_app. cbn [List.length].
  rewrite !length_app. lia.
Qed.

End TrackRecord.

Section Loop.

(** The loop does not depend on the bound of the unrolling once the bound
    exceeds the number of bytes left, and it does not run out of it. *)
Lemma trackLoop_fuel (n : nat) :
  forall m size acc r,
    (io.available r < n)%nat -> (io.available r < m)%nat ->
    trackLoop n size acc r = trackLoop m size acc r
    /\ trackLoop n size acc r <> OutOfFuel.
Proof.
  induction n as [|n IH]; intros m size acc r Hn Hm; [lia|].
  destruct m as [|m]; [lia|].
  cbn [trackLoop]. destruct (0 <? size); [|split; [reflexivity|discriminate]].
  unfold io.bind.
  destruct (readTrack size r) as [[[[ot err] size'] r']|msg|] eqn:Heq;
    [|split; [reflexivity|discriminate]|].
  - destruct err as [e|]; [split; [reflexivity|discriminate]|].
    destruct ot as [t|]; [|split; [reflexivity|discriminate]].
    apply readTrack_progress in Heq.
    apply IH; lia.
  - exfalso.
    destruct (readTrack_spec size r)
      as [(? & ? & ? & H & _)|[(? & ? & ? & H & _)|(? & ? & ? & ? & ? & H & _)]];
      rewrite H in Heq; discriminate.
Qed.

(** What the loop returns extends the tracks it started with, and every
    track it adds came from [readTrack]. *)
Lemma trackLoop_invariant (P : Track -> Prop) :
  (forall size r t err size' r',
      readTrack size r = Returns ((Some t, err, size'), r') -> P t) ->
  forall fuel size acc r tracks err size' r',
    Forall P acc ->
    trackLoop fuel size acc r = Returns ((tracks, err, size'), r') ->
    Forall P tracks.
Proof.
  intros HP. induction fuel as [|fuel IH];
    intros size acc r tracks err size' r' Hacc; cbn [trackLoop];
    destruct (0 <? size); unfold io.bind, io.ret.
  - discriminate.
  - intros H; injection H as <- _ _ _. exact Hacc.
  - destruct (readTrack size r) as [[[[ot e] sz] r1]|msg|] eqn:Heq;
      try discriminate.
    destruct e as [e|].
    + intros H; injection H as <- _ _ _. exact Hacc.
    + destruct ot as [t|].
      * apply IH. apply Forall_app. split; [exact Hacc|].
        constructor; [|constructor]. eapply HP, Heq.
      * intros H; injection H as <- _ _ _. exact Hacc.
  - intros H; injection H as <- _ _ _. exact Hacc.
Qed.

End Loop.

Section Header.

Lemma readHeader_returns (r : io.Reader) :
  exists h err r',
    readHeader r = Returns ((h, err), r')
    /\ (io.available r' <= io.available r)%nat
    /\ (forall e, err = Some e ->
          h = "" /\ IsIOError e
          /\ exists buf n, io.Read (zeros 6) r = Returns ((buf, n, Some e), r'))
    /\ (err = None ->
        exists buf n,
          io.Read (zeros 6) r = Returns ((buf, n, nil_error), r')
          /\ h = string_of_list_byte buf).
Proof.
  unfold readHeader, io.bind.
  destruct (Read_returns r (zeros 6))
    as (buf & n & err & r' & Heq & Hlen & Hn & Hc & Hsk & Hok & Herr).
  rewrite Heq.
  assert (Hav : (io.available r' <= io.available r)%nat)
    by (rewrite (available_app_le _ _ _ Hc); lia).
  destruct err as [e|]; unfold io.ret;
    eexists _, _, _; (split; [reflexivity|]); splits; auto; try discriminate.
  - intros e' He; injection He as <-. splits; auto.
    + apply (Herr e eq_refl).
    + eauto.
  - intros _. eauto.
Qed.

Lemma readContentSize_returns (r : io.Reader) :
  exists size err r',
    readContentSize r = Returns ((size, err), r')
    /\ (io.available r' <= io.available r)%nat
    /\ (forall e, err = Some e -> IsIOError e)
    /\ (err = None ->
        exists bs, List.length bs = 8%nat
                   /\ io.contents r = bs ++ io.contents r'
                   /\ size = binary.decode binary.BigEndian binary.Int64 bs).
Proof.
  unfold readContentSize, io.bind.
  destruct (binary_Read_returns binary.BigEndian binary.Int64 r)
    as (v & err & r' & Heq & Hok & Herr & Hav).
  rewrite Heq.
  destruct err as [e|]; unfold io.ret;
    eexists _, _, _; (split; [reflexivity|]); splits; auto; try discriminate.
  intros e' He; injection He as <-. apply (Herr e eq_refl).
Qed.

Lemma readVersion_returns (r : io.Reader) :
  exists v err r',
    readVersion r = Returns ((v, err), r')
    /\ (io.available r' <= io.available r)%nat
    /\ (forall e, err = Some e -> IsIOError e)
    /\ (err = None ->
        exists buf n,
          io.Read (zeros 32) r = Returns ((buf, n, nil_error), r')
          /\ v = string_of_list_byte (bytes.Trim buf x00)).
Proof.
  unfold readVersion, io.bind.
  destruct (Read_returns r (zeros 32))
    as (buf & n & err & r' & Heq & Hlen & Hn & Hc & Hsk & Hok & Herr).
  rewrite Heq.
  assert (Hav : (io.available r' <= io.available r)%nat)
    by (rewrite (available_app_le _ _ _ Hc); lia).
  destruct err as [e|]; unfold io.ret;
    eexists _, _, _; (split; [reflexivity|]); splits; auto; try discriminate.
  - intros e' He; injection He as <-. apply (Herr e eq_refl).
  - intros _. eauto.
Qed.

Lemma readTempo_returns (r : io.Reader) :
  exists t err r',
    readTempo r = Returns ((t, err), r')
    /\ (io.available r' <= io.available r)%nat
    /\ (forall e, err = Some e -> IsIOError e)
    /\ (err = None ->
        exists bs, List.length bs = 4%nat
                   /\ io.contents r = bs ++ io.contents r'
                   /\ t = math.Float32frombits
                            (binary.decode binary.LittleEndian binary.Float32 bs)).
Proof.
  unfold readTempo, io.bind.
  destruct (binary_Read_returns binary.LittleEndian binary.Float32 r)
    as (v & err & r' & Heq & Hok & Herr & Hav).
  rewrite Heq.
  destruct err as [e|]; unfold io.ret;
    eexists _, _, _; (split; [reflexivity|]); splits; auto; try discriminate.
  - intros e' He; injection He as <-. apply (Herr e eq_refl).
  - intros _. destruct (Hok eq_refl) as (bs & ? & ? & ->). eauto.
Qed.

(** Once the four fixed fields are read, [DecodeFile] is the loop seeded
    with the declared size less 32 and less 4, and the assembly of the
    pattern. *)
Lemma decodeFuel_after_header fuel file herr r1 sz r2 v r3 t r4 :
  readHeader file = Returns (("SPLICE", herr), r1) ->
  readContentSize r1 = Returns ((sz, nil_error), r2) ->
  readVersion r2 = Returns ((v, nil_error), r3) ->
  readTempo r3 = Returns ((t, nil_error), r4) ->
  decodeFuel fuel file =
    match trackLoop fuel (sub64 (sub64 sz 32) 4) [] r4 with
    | Returns ((tracks, None, _), r5) =>
        Returns ((Some (mkPattern v t tracks), nil_error), r5)
    | Returns ((_, Some e, _), r5) => Returns ((None, Some e), r5)
    | Panics msg => Panics msg
    | OutOfFuel => OutOfFuel
    end.
Proof.
  intros H1 H2 H3 H4. unfold decodeFuel, io.bind.
  rewrite H1. cbn [String.eqb Ascii.eqb Bool.eqb negb andb].
  rewrite H2, H3, H4.
  destruct (trackLoop fuel (sub64 (sub64 sz 32) 4) [] r4)
    as [[[[tracks [e|]] sz'] r5]|msg|]; reflexivity.
Qed.

(** The bound [decode] takes for the unrolling is enough: a larger one
    changes nothing, and [decode] never runs out of it. *)
Lemma decodeFuel_fuel (fuel : nat) (file : io.Reader) :
  (io.available file < fuel)%nat ->
  decodeFuel fuel file = decode file /\ decode file <> OutOfFuel.
Proof.
  intros Hfuel. unfold decode, decodeFuel, io.bind.
  destruct (readHeader_returns file) as (h & herr & r1 & Heq1 & Hav1 & _).
  rewrite Heq1.
  destruct (negb (h =? "SPLICE")%string);
    [split; [reflexivity|discriminate]|].
  destruct (readContentSize_returns r1) as (sz & e2 & r2 & Heq2 & Hav2 & _).
  rewrite Heq2. destruct e2; [split; [reflexivity|discriminate]|].
  destruct (readVersion_returns r2) as (v & e3 & r3 & Heq3 & Hav3 & _).
  rewrite Heq3. destruct e3; [split; [reflexivity|discriminate]|].
  destruct (readTempo_returns r3) as (t & e4 & r4 & Heq4 & Hav4 & _).
  rewrite Heq4. destruct e4; [split; [reflexivity|discriminate]|].
  destruct (trackLoop_fuel fuel (S (io.available file))
              (sub64 (sub64 sz 32) 4) [] r4) as [Hsame Hne]; try lia.
  rewrite <- Hsame.
  destruct (trackLoop fuel (sub64 (sub64 sz 32) 4) [] r4)
    as [[[[tracks [e|]] sz'] r5]|msg|];
    (split; [reflexivity|]); try discriminate.
  now elim Hne.
Qed.

End Header.

(** * Files whose next bytes are all there *)

Section Prefix.

Variables (pre rest : list byte) (r : io.Reader).

Lemma ReadFull_prefix (buf : list byte) :
  buf <> [] -> List.length pre = List.length buf ->
  io.ReadFull buf (io.Data (pre ++ rest) :: r)
  = Returns ((pre, List.length buf, nil_error), io.Data rest :: r).
Proof.
  intros Hne Hlen. destruct buf as [|b buf]; [now elim Hne|].
  cbn [io.ReadFull].
  destruct (Nat.ltb_spec (List.length (pre ++ rest)) (List.length (b :: buf)))
    as [Hlt|_]; [rewrite length_app in Hlt; lia|].
  rewrite <- Hlen, firstn_app, firstn_all, Nat.sub_diag, firstn_O, app_nil_r.
  rewrite skipn_app, skipn_all, Nat.sub_diag. reflexivity.
Qed.

Lemma Read_prefix (buf : list byte) :
  buf <> [] -> List.length pre = List.length buf ->
  io.Read buf (io.Data (pre ++ rest) :: r)
  = Returns ((pre, List.length buf, nil_error), io.Data rest :: r).
Proof.
  intros Hne Hlen. destruct buf as [|b buf]; [now elim Hne|].
  destruct pre as [|p0 pre0] eqn:Hpre; [discriminate Hlen|].
  cbn [io.Read app]. rewrite <- Hpre.
  change (p0 :: pre0 ++ rest) with ((p0 :: pre0) ++ rest). rewrite <- Hpre.
  assert (Hl : List.length pre = List.length (b :: buf)) by now rewrite Hpre.
  rewrite <- Hl, firstn_app, firstn_all, Nat.sub_diag, firstn_O, app_nil_r.
  rewrite skipn_app, skipn_all, Nat.sub_diag.
  rewrite Hl, skipn_all, app_nil_r. reflexivity.
Qed.

Lemma binary_Read_prefix order k :
  List.length pre = binary.size k ->
  binary.Read order k (io.Data (pre ++ rest) :: r)
  = Returns ((binary.decode order k pre, nil_error), io.Data rest :: r).
Proof.
  intros Hlen. unfold binary.Read, io.bind.
  rewrite ReadFull_prefix.
  - reflexivity.
  - destruct k; discriminate.
  - now rewrite zeros_length.
Qed.

End Prefix.

(** * The decoder *)

(** C1: the file made of the signature SPLICE, the payload size 61 as a
    big-endian int64, the version block 0.808-alpha padded with zeros to 32
    bytes, the little-endian float32 bytes of 120.0 and one track record
    (ID 0, name length 4, name kick, steps 1000 1000 1000 1000) decodes,
    with no error, to exactly the pattern of version 0.808-alpha, tempo 120
    and that one track. *)
Theorem decode_kick_file (fs : os.FileSystem) (path : string) :
  fs path = Some (io.regular kick_file) ->
  DecodeFile fs path =
    Returns (Some {| Version := "0.808-alpha";
                     Tempo := S754_finite false 15728640 (-17);
                     Tracks := [ {| ID := 0; Name := "kick";
                                    Steps := kick_steps |} ] |},
             nil_error)
  /\ math.value (S754_finite false 15728640 (-17)) = Some (120 # 1)%Q.
Proof.
  intros Hfile. unfold DecodeFile, os.Open. rewrite Hfile.
  split; vm_compute; reflexivity.
Qed.

Lemma decode_kick_file_witness :
  single_file "kick.splice" (io.regular kick_file) "kick.splice"
  = Some (io.regular kick_file)
  /\ DecodeFile (single_file "kick.splice" (io.regular kick_file)) "kick.splice"
     = Returns (Some {| Version := "0.808-alpha";
                        Tempo := S754_finite false 15728640 (-17);
                        Tracks := [ {| ID := 0; Name := "kick";
                                       Steps := kick_steps |} ] |},
                nil_error).
Proof.
  split; [reflexivity|].
  apply (decode_kick_file (single_file "kick.splice" (io.regular kick_file))
           "kick.splice").
  reflexivity.
Defined.

(** The bytes of a text made of two parts. *)
Lemma list_byte_of_string_append (a b : string) :
  list_byte_of_string (String.append a b)
  = list_byte_of_string a ++ list_byte_of_string b.
Proof.
  induction a as [|c a IH]; [reflexivity|].
  change (list_byte_of_string (String.append (String c a) b))
    with (byte_of_ascii c :: list_byte_of_string (String.append a b)).
  now rewrite IH.
Qed.

(** C2: when the read of the header delivers six bytes that are not SPLICE,
    decoding fails with the error built by fmt.Errorf.  Its message is the
    text "Invalid file header, expected SPLICE, got " followed by the six
    bytes read, so these six bytes are the last six bytes of the message;
    and the file is left as that one read left it: nothing after the six
    bytes is consumed. *)
Theorem signature_gate (file file' : io.Reader) (buf : list byte) :
  io.Read (zeros 6) file = Returns ((buf, 6%nat, nil_error), file') ->
  string_of_list_byte buf <> "SPLICE" ->
  let message :=
    String.append "Invalid file header, expected SPLICE, got "
      (string_of_list_byte buf) in
  decode file = Returns ((None, Some (Errorf message)), file')
  /\ IsFormatError (Errorf message)
  /\ list_byte_of_string message
     = list_byte_of_string "Invalid file header, expected SPLICE, got " ++ buf
  /\ skipn 42 (list_byte_of_string message) = buf
  /\ List.length buf = 6%nat
  /\ io.contents file = buf ++ io.contents file'
  /\ (forall fs path,
        fs path = Some file ->
        DecodeFile fs path = Returns (None, Some (Errorf message))).
Proof.
  intros Hread Hne message.
  assert (Hdec : decode file = Returns ((None, Some (Errorf message)), file')).
  { unfold decode, decodeFuel, readHeader, io.bind. rewrite Hread.
    unfold io.ret. destruct (String.eqb_spec (string_of_list_byte buf) "SPLICE")
      as [Heq|_]; [now elim Hne|]. reflexivity. }
  assert (Hmsg : list_byte_of_string message
     = list_byte_of_string "Invalid file header, expected SPLICE, got " ++ buf).
  { unfold message.
    now rewrite list_byte_of_string_append, list_byte_of_string_of_list_byte. }
  destruct (Read_returns file (zeros 6))
    as (bs & n & err & r' & Heq & Hlen & _ & Hc & _).
  rewrite Hread in Heq. injection Heq as <- <- <- <-.
  rewrite zeros_length in Hlen.
  splits; auto.
  - now eexists.
  - rewrite Hmsg. reflexivity.
  - now rewrite <- Hlen, firstn_all in Hc.
  - intros fs path Hfile. unfold DecodeFile, os.Open.
    now rewrite Hfile, Hdec.
Qed.

Lemma signature_gate_witness :
  io.Read (zeros 6) (io.regular (list_byte_of_string "SPLASH!"))
  = Returns ((list_byte_of_string "SPLASH", 6%nat, nil_error),
             io.regular (list_byte_of_string "!"))
  /\ decode (io.regular (list_byte_of_string "SPLASH!"))
     = Returns ((None,
                 Some (Errorf "Invalid file header, expected SPLICE, got SPLASH")),
                io.regular (list_byte_of_string "!")).
Proof.
  split; [reflexivity|].
  apply (signature_gate (io.regular (list_byte_of_string "SPLASH!"))
           (io.regular (list_byte_of_string "!"))
           (list_byte_of_string "SPLASH")).
  - reflexivity.
  - discriminate.
Defined.

(** C3: decoding does not always end with a pattern or an error value: a
    track record whose name length byte is negative as an int8 makes
    [make] panic.  Here the name length of [kick_file] is replaced by 0xff. *)
Theorem negative_name_length_panics (fs : os.FileSystem) (path : string) :
  fs path = Some (io.regular negative_name_file) ->
  DecodeFile fs path = Panics "runtime error: makeslice: len out of range".
Proof.
  intros Hfile. unfold DecodeFile, os.Open. rewrite Hfile.
  vm_compute. reflexivity.
Qed.

Lemma negative_name_length_panics_witness :
  single_file "bad.splice" (io.regular negative_name_file) "bad.splice"
  = Some (io.regular negative_name_file)
  /\ DecodeFile (single_file "bad.splice" (io.regular negative_name_file))
       "bad.splice"
     = Panics "runtime error: makeslice: len out of range".
Proof.
  split; [reflexivity|].
  apply (negative_name_length_panics
           (single_file "bad.splice" (io.regular negative_name_file))
           "bad.splice").
  reflexivity.
Defined.

(** Apart from that panic [DecodeFile] does end as C3 says: with a pattern
    and no error, or with an error and no pattern. *)
Lemma trackLoop_panics (fuel : nat) :
  forall size acc r msg,
    trackLoop fuel size acc r = Panics msg ->
    exists size' r', readTrack size' r' = Panics msg.
Proof.
  induction fuel as [|fuel IH]; intros size acc r msg; cbn [trackLoop];
    destruct (0 <? size); unfold io.bind, io.ret; try discriminate.
  destruct (readTrack size r) as [[[[[t|] [e|]] sz] r1]|m|] eqn:Heq;
    try discriminate.
  - apply IH.
  - intros H. injection H as <-. eauto.
Qed.

Lemma DecodeFile_outcomes (fs : os.FileSystem) (path : string) :
  (exists p, DecodeFile fs path = Returns (Some p, nil_error))
  \/ (exists e, DecodeFile fs path = Returns (None, Some e))
  \/ (DecodeFile fs path = Panics "runtime error: makeslice: len out of range"
      /\ exists size r idb nb r2,
           readTrack size r = Panics "runtime error: makeslice: len out of range"
           /\ List.length idb = 4%nat
           /\ io.contents r = idb ++ nb :: io.contents r2
           /\ binary.decode binary.LittleEndian binary.Int8 [nb] < 0).
Proof.
  unfold DecodeFile, os.Open. destruct (fs path) as [f|]; [|right; left; eauto].
  unfold decode, decodeFuel, io.bind, io.ret.
  destruct (readHeader_returns f) as (h & e1 & r1 & -> & Hav1 & _).
  destruct (negb (h =? "SPLICE")%string); [right; left; eauto|].
  destruct (readContentSize_returns r1) as (sz & e2 & r2 & -> & Hav2 & _).
  destruct e2; [right; left; eauto|].
  destruct (readVersion_returns r2) as (v & e3 & r3 & -> & Hav3 & _).
  destruct e3; [right; left; eauto|].
  destruct (readTempo_returns r3) as (t & e4 & r4 & -> & Hav4 & _).
  destruct e4; [right; left; eauto|].
  destruct (trackLoop (S (io.available f)) (sub64 (sub64 sz 32) 4) [] r4)
    as [[[[tracks [e|]] sz'] r5]|msg|] eqn:Hloop.
  - right; left; eauto.
  - left; eauto.
  - right; right.
    destruct (trackLoop_panics _ _ _ _ _ Hloop) as (size & r & Hp).
    destruct (readTrack_spec size r)
      as [(idb & nb & rr & Heq & Hid & Hc & Hneg)
         |[(e & s' & rr & Heq & _)
          |(idb & nb & got & stepBytes & rr & Heq & _)]];
      rewrite Heq in Hp; try discriminate.
    injection Hp as <-. split; [reflexivity|].
    exists size, r, idb, nb, rr. auto.
  - exfalso.
    destruct (trackLoop_fuel (S (io.available f)) (S (io.available f))
                (sub64 (sub64 sz 32) 4) [] r4) as [_ Hne]; [lia|lia|].
    now elim Hne.
Qed.

(** Every record with a negative name length that the loop reaches does so. *)
Lemma readTrack_negative_length size idb nb rest r :
  List.length idb = 4%nat ->
  binary.decode binary.LittleEndian binary.Int8 [nb] < 0 ->
  readTrack size (io.Data (idb ++ nb :: rest) :: r)
  = Panics "runtime error: makeslice: len out of range".
Proof.
  intros Hid Hneg. unfold readTrack, io.bind.
  rewrite binary_Read_prefix by exact Hid.
  change (nb :: rest) with ([nb] ++ rest).
  rewrite binary_Read_prefix by reflexivity.
  unfold make. destruct (Z.ltb_spec
    (binary.decode binary.LittleEndian binary.Int8 [nb]) 0); [reflexivity|lia].
Qed.

(** C4: an error of the read of the header is not what [DecodeFile]
    returns: [readHeader] hands back the empty string with the error,
    [DecodeFile] compares the string with SPLICE without looking at the
    error, and reports a wrong signature. *)
Theorem header_error_reported_as_format
  (file file' : io.Reader) (buf : list byte) (n : nat) (e : Error) :
  io.Read (zeros 6) file = Returns ((buf, n, Some e), file') ->
  decode file = Returns ((None, Some (invalid_header "")), file')
  /\ IsFormatError (invalid_header "")
  /\ ~ IsIOError (invalid_header "").
Proof.
  intros Hread. splits.
  - unfold decode, decodeFuel, readHeader, io.bind. rewrite Hread. reflexivity.
  - now eexists.
  - intros [H|[H|H]]; discriminate H.
Qed.

Lemma header_error_reported_as_format_witness :
  io.Read (zeros 6) (io.regular []) = Returns ((zeros 6, O, Some EOF), [])
  /\ decode (io.regular []) = Returns ((None, Some (invalid_header "")), []).
Proof.
  split; [reflexivity|].
  apply (header_error_reported_as_format (io.regular []) [] (zeros 6) O EOF).
  reflexivity.
Defined.

(** A header read that comes back short without an error is compared too,
    padded with the zeros of the fresh buffer, and never equals SPLICE. *)
Lemma short_header_reported_as_format
  (file file' : io.Reader) (buf : list byte) (n : nat) :
  io.Read (zeros 6) file = Returns ((buf, n, nil_error), file') ->
  (n < 6)%nat ->
  decode file
  = Returns ((None, Some (invalid_header (string_of_list_byte buf))), file').
Proof.
  intros Hread Hn.
  destruct (Read_returns file (zeros 6))
    as (bs & k & err & r' & Heq & Hlen & _ & _ & Hsk & _).
  rewrite Hread in Heq. injection Heq as <- <- <- <-.
  unfold decode, decodeFuel, readHeader, io.bind. rewrite Hread.
  unfold io.ret.
  destruct (String.eqb_spec (string_of_list_byte buf) "SPLICE") as [Heq|_];
    [|reflexivity].
  exfalso. apply (f_equal list_byte_of_string) in Heq.
  rewrite list_byte_of_string_of_list_byte in Heq. subst buf.
  do 6 (destruct n as [|n]; [discriminate Hsk|]). lia.
Qed.

(** C5: a short read of the name is accepted.  The bytes of [kick_file]
    arrive in two pieces, the first ending after "ki"; the unchecked
    [Read] of the four name bytes obtains two, the name keeps the zeros of
    the fresh buffer, the steps are read from "ck" on, and the decoding
    succeeds. *)
Theorem short_name_read_accepted (fs : os.FileSystem) (path : string) :
  fs path = Some kick_pipe ->
  DecodeFile fs path =
    Returns (Some {| Version := "0.808-alpha";
                     Tempo := S754_finite false 15728640 (-17);
                     Tracks :=
                       [ {| ID := 0;
                            Name := string_of_list_byte [x6b; x69; x00; x00];
                            Steps := [true; true; true; false;
                                      false; false; true; false;
                                      false; false; true; false;
                                      false; false; true; false] |} ] |},
             nil_error).
Proof.
  intros Hfile. unfold DecodeFile, os.Open. rewrite Hfile.
  vm_compute. reflexivity.
Qed.

Lemma short_name_read_accepted_witness :
  single_file "fifo" kick_pipe "fifo" = Some kick_pipe
  /\ exists p, DecodeFile (single_file "fifo" kick_pipe) "fifo"
               = Returns (Some p, nil_error)
               /\ map Name (Tracks p) = [string_of_list_byte [x6b; x69; x00; x00]].
Proof.
  split; [reflexivity|].
  eexists. split.
  - apply (short_name_read_accepted (single_file "fifo" kick_pipe) "fifo").
    reflexivity.
  - reflexivity.
Defined.

(** On a regular file a short read of the name happens at the end of the
    file only, and the read of the first step then fails with [EOF]. *)
Lemma stepsLoop_at_eof (n i : nat) (steps : list bool) (r : io.Reader) :
  r = [] \/ r = [io.Data []] ->
  stepsLoop (S n) i steps r = Returns ((steps, Some EOF), []).
Proof.
  intros [-> | ->]; reflexivity.
Qed.

Lemma short_name_on_regular_file size idb nb rest :
  List.length idb = 4%nat ->
  0 <= binary.decode binary.LittleEndian binary.Int8 [nb] ->
  (List.length rest
   < Z.to_nat (binary.decode binary.LittleEndian binary.Int8 [nb]))%nat ->
  exists size',
    readTrack size (io.regular (idb ++ nb :: rest))
    = Returns ((None, Some EOF, size'), []).
Proof.
  intros Hid Hpos Hshort. unfold readTrack, io.bind, io.regular.
  rewrite binary_Read_prefix by exact Hid.
  change (nb :: rest) with ([nb] ++ rest).
  rewrite binary_Read_prefix by reflexivity.
  unfold make.
  destruct (Z.ltb_spec (binary.decode binary.LittleEndian binary.Int8 [nb]) 0);
    [lia|].
  set (n := Z.to_nat (binary.decode binary.LittleEndian binary.Int8 [nb])) in *.
  cbn [io.ret].
  destruct n as [|n]; [lia|].
  destruct rest as [|c0 c].
  - cbn [zeros repeat io.Read]. rewrite stepsLoop_at_eof by auto.
    eexists; reflexivity.
  - cbn [zeros repeat io.Read].
    rewrite (skipn_all2 (c0 :: c)) by (cbn [List.length repeat] in *;
      rewrite repeat_length; lia).
    rewrite stepsLoop_at_eof by auto.
    eexists; reflexivity.
Qed.

(** * The version field *)

Section Trim.

Variable c : byte.

Lemma byte_eqb_true (b : byte) : Byte.eqb b c = true -> b = c.
Proof. apply Byte.byte_dec_bl. Qed.

Lemma byte_eqb_false (b : byte) : Byte.eqb b c = false -> b <> c.
Proof.
  intros H Heq. apply Byte.byte_dec_lb in Heq. congruence.
Qed.

Lemma hd_error_app_ne {A} (l1 l2 : list A) :
  l1 <> [] -> hd_error (l1 ++ l2) = hd_error l1.
Proof. destruct l1; [congruence|reflexivity]. Qed.

Lemma rev_ne {A} (l : list A) : l <> [] -> rev l <> [].
Proof.
  intros Hne Hr. apply (f_equal (@List.length A)) in Hr.
  rewrite length_rev in Hr. destruct l; [congruence|discriminate].
Qed.

(** [trimRightByte] cuts a run of [c] off the end and stops at the last
    other byte. *)
Lemma trimRightByte_spec (s : list byte) :
  (exists t, s = bytes.trimRightByte s c ++ repeat c t)
  /\ hd_error (rev (bytes.trimRightByte s c)) <> Some c.
Proof.
  induction s as [|b s [[t IHt] IHl]]; [split; [now exists O|discriminate]|].
  cbn [bytes.trimRightByte].
  destruct (bytes.trimRightByte s c) as [|x T] eqn:HT.
  - destruct (Byte.eqb b c) eqn:Hb.
    + apply byte_eqb_true in Hb. subst b. split; [|discriminate].
      exists (S t). rewrite IHt. reflexivity.
    + apply byte_eqb_false in Hb. split.
      * exists t. now rewrite IHt at 1.
      * cbn. congruence.
  - split.
    + exists t. now rewrite IHt at 1.
    + change (rev (b :: x :: T)) with (rev (x :: T) ++ [b]).
      rewrite hd_error_app_ne; [exact IHl|].
      apply rev_ne. discriminate.
Qed.

(** [trimLeftByte] cuts a run of [c] off the start and leaves the end as
    it is. *)
Lemma trimLeftByte_spec (s : list byte) :
  (exists l, s = repeat c l ++ bytes.trimLeftByte s c)
  /\ hd_error (bytes.trimLeftByte s c) <> Some c
  /\ (hd_error (rev s) <> Some c ->
      hd_error (rev (bytes.trimLeftByte s c)) <> Some c).
Proof.
  induction s as [|b s [[l IHl] [IHh IHr]]];
    [splits; [now exists O|discriminate|auto]|].
  cbn [bytes.trimLeftByte].
  destruct (Byte.eqb b c) eqn:Hb.
  - apply byte_eqb_true in Hb. subst b. splits.
    + exists (S l). cbn. now rewrite <- IHl.
    + exact IHh.
    + intros Hlast. apply IHr.
      destruct s as [|x s']; [discriminate|].
      change (rev (c :: x :: s')) with (rev (x :: s') ++ [c]) in Hlast.
      rewrite hd_error_app_ne in Hlast; [exact Hlast|].
      apply rev_ne. discriminate.
  - apply byte_eqb_false in Hb. splits.
    + now exists O.
    + cbn. congruence.
    + auto.
Qed.

(** [Trim] keeps the part from the first to the last byte other than [c]. *)
Lemma Trim_spec (s : list byte) :
  exists l t,
    s = repeat c l ++ bytes.Trim s c ++ repeat c t
    /\ hd_error (bytes.Trim s c) <> Some c
    /\ hd_error (rev (bytes.Trim s c)) <> Some c.
Proof.
  unfold bytes.Trim.
  destruct (trimRightByte_spec s) as [[t Ht] Hlast].
  destruct (trimLeftByte_spec (bytes.trimRightByte s c)) as [[l Hl] [Hh Hr]].
  exists l, t. splits; auto.
  rewrite app_assoc, <- Hl. exact Ht.
Qed.

End Trim.

(** C6, as the code has it: on a file that still holds 32 bytes, the
    version is read from exactly the next 32 bytes, and both the leading and
    the trailing run of zero bytes of the block are removed; the text is the
    part of the block from its first to its last byte other than zero,
    embedded zero bytes included, byte for byte. *)
Theorem readVersion_trims_both_ends (block rest : list byte) :
  List.length block = 32%nat ->
  exists l v t,
    readVersion (io.regular (block ++ rest))
    = Returns ((string_of_list_byte v, nil_error), io.regular rest)
    /\ block = zeros l ++ v ++ zeros t
    /\ hd_error v <> Some x00
    /\ hd_error (rev v) <> Some x00.
Proof.
  intros Hlen.
  destruct (Trim_spec x00 block) as (l & t & Hblock & Hh & Hl).
  exists l, (bytes.Trim block x00), t. splits; auto.
  unfold readVersion, io.bind, io.regular.
  rewrite Read_prefix; [reflexivity|discriminate|].
  now rewrite zeros_length.
Qed.

Lemma readVersion_trims_both_ends_witness :
  List.length leading_zero_version = 32%nat
  /\ exists l v t,
       readVersion (io.regular (leading_zero_version ++ [x2a]))
       = Returns ((string_of_list_byte v, nil_error), io.regular [x2a])
       /\ leading_zero_version = zeros l ++ v ++ zeros t
       /\ hd_error v <> Some x00
       /\ hd_error (rev v) <> Some x00.
Proof.
  split; [reflexivity|].
  apply (readVersion_trims_both_ends leading_zero_version [x2a]).
  reflexivity.
Defined.

(** C6 as it is worded fails on a block that starts with a zero byte: the
    words keep the leading zero of 00 'a' 00 'b' 00..., the code drops it. *)
Lemma version_leading_zero_removed :
  readVersion (io.regular leading_zero_version)
  = Returns ((string_of_list_byte [x61; x00; x62], nil_error), io.regular [])
  /\ stripTrailingZeros leading_zero_version = [x00; x61; x00; x62]
  /\ string_of_list_byte [x61; x00; x62]
     <> string_of_list_byte (stripTrailingZeros leading_zero_version).
Proof.
  splits; [reflexivity|reflexivity|discriminate].
Qed.

(** * The steps *)

Lemma unsigned_of_byte_range (b : byte) : 0 <= unsigned_of_byte b <= 255.
Proof.
  unfold unsigned_of_byte. pose proof (Byte.to_N_bounded b). lia.
Qed.

Lemma int8_of_byte (b : byte) :
  binary.decode binary.LittleEndian binary.Int8 [b]
  = if unsigned_of_byte b <? 128
    then unsigned_of_byte b else unsigned_of_byte b - 256.
Proof.
  cbn [binary.decode binary.Uint binary.littleEndian]. unfold signed.
  rewrite Z.mul_0_r, Z.add_0_r. reflexivity.
Qed.

Lemma int8_of_byte_range (b : byte) :
  -128 <= binary.decode binary.LittleEndian binary.Int8 [b] <= 127.
Proof.
  rewrite int8_of_byte. pose proof (unsigned_of_byte_range b).
  destruct (Z.ltb_spec (unsigned_of_byte b) 128); lia.
Qed.

(** What a successful decoding returns was collected by the loop. *)
Lemma decodeFuel_tracks fuel file p err file' :
  decodeFuel fuel file = Returns ((Some p, err), file') ->
  exists size r size',
    trackLoop fuel size [] r = Returns ((Tracks p, nil_error, size'), file').
Proof.
  unfold decodeFuel, io.bind, io.ret.
  destruct (readHeader file) as [[[h e1] r1]|?|]; try discriminate.
  destruct (negb (h =? "SPLICE")%string); try discriminate.
  destruct (readContentSize r1) as [[[sz [e2|]] r2]|?|]; try discriminate.
  destruct (readVersion r2) as [[[v [e3|]] r3]|?|]; try discriminate.
  destruct (readTempo r3) as [[[t [e4|]] r4]|?|]; try discriminate.
  destruct (trackLoop fuel (sub64 (sub64 sz 32) 4) [] r4)
    as [[[[tracks [e5|]] sz'] r5]|?|] eqn:Hloop; try discriminate.
  intros H. injection H as <- <- <-. eauto.
Qed.

(** C7: a step is active exactly when its byte, read as an int8, is
    greater than zero, that is for 0x01..0x7f and not for 0x00 or
    0x80..0xff; the steps of a track are the flags of the last sixteen
    bytes of its record, in order; every decoded track has sixteen steps. *)
Theorem steps_threshold :
  (forall b : byte,
      (stepActive b = true <-> 0 < binary.decode binary.LittleEndian binary.Int8 [b])
      /\ (stepActive b = true <-> 1 <= unsigned_of_byte b <= 127))
  /\ (forall size file t err size' file',
        readTrack size file = Returns ((Some t, err, size'), file') ->
        exists before stepBytes,
          io.contents file = before ++ stepBytes ++ io.contents file'
          /\ List.length stepBytes = 16%nat
          /\ Steps t = map stepActive stepBytes
          /\ List.length (Steps t) = 16%nat)
  /\ (forall fs path p err,
        DecodeFile fs path = Returns (Some p, err) ->
        Forall (fun t => List.length (Steps t) = 16%nat) (Tracks p)).
Proof.
  assert (Hrec : forall size file t err size' file',
        readTrack size file = Returns ((Some t, err, size'), file') ->
        exists before stepBytes,
          io.contents file = before ++ stepBytes ++ io.contents file'
          /\ List.length stepBytes = 16%nat
          /\ Steps t = map stepActive stepBytes
          /\ List.length (Steps t) = 16%nat).
  { intros size file t err size' file' H.
    destruct (readTrack_spec size file)
      as [(idb & nb & r2 & Heq & _)
         |[(e & sz & r2 & Heq & _)
          |(idb & nb & got & stepBytes & r2 & Heq & Hid & _ & _ & Hst & Hc)]];
      rewrite Heq in H; try discriminate.
    injection H as <- _ _ <-.
    exists (idb ++ nb :: got), stepBytes. cbn [Steps]. splits; auto.
    - rewrite Hc, <- app_assoc. reflexivity.
    - now rewrite length_map. }
  splits.
  - intros b. unfold stepActive. rewrite Z.ltb_lt. split; [reflexivity|].
    rewrite int8_of_byte. pose proof (unsigned_of_byte_range b).
    destruct (Z.ltb_spec (unsigned_of_byte b) 128); lia.
  - exact Hrec.
  - intros fs path p err H. unfold DecodeFile, os.Open in H.
    destruct (fs path) as [f|]; [|discriminate].
    destruct (decode f) as [[res r']|?|] eqn:Hdec; try discriminate.
    injection H as ->. unfold decode in Hdec.
    apply decodeFuel_tracks in Hdec. destruct Hdec as (size & r & size' & Hloop).
    eapply trackLoop_invariant; [|constructor|exact Hloop].
    intros sz r0 t e sz' r0' Ht.
    destruct (Hrec _ _ _ _ _ _ Ht) as (? & ? & _ & _ & _ & Hl). exact Hl.
Qed.

Lemma steps_threshold_witness :
  readTrack 25 (io.regular (skipn 50 kick_file))
  = Returns ((Some {| ID := 0; Name := "kick"; Steps := kick_steps |},
              nil_error, 0), io.regular [])
  /\ List.length kick_steps = 16%nat
  /\ Forall (fun t => List.length (Steps t) = 16%nat)
       [ {| ID := 0; Name := "kick"; Steps := kick_steps |} ].
Proof.
  split; [reflexivity|]. split.
  - destruct (proj1 (proj2 steps_threshold) 25
                (io.regular (skipn 50 kick_file))
                {| ID := 0; Name := "kick"; Steps := kick_steps |}
                nil_error 0 (io.regular []) eq_refl)
      as (before & stepBytes & _ & _ & _ & Hl).
    exact Hl.
  - apply (proj2 (proj2 steps_threshold)
             (single_file "kick.splice" (io.regular kick_file)) "kick.splice"
             {| Version := "0.808-alpha";
                Tempo := S754_finite false 15728640 (-17);
                Tracks := [ {| ID := 0; Name := "kick";
                               Steps := kick_steps |} ] |}
             nil_error).
    reflexivity.
Defined.

(** * The counter of the track loop *)

Section Counter.

Lemma wrap64_small (z : Z) : min_int64 <= z <= max_int64 -> wrap64 z = z.
Proof.
  unfold min_int64, max_int64, wrap64, signed.
  change (2 ^ (64 - 1)) with 9223372036854775808.
  change (2 ^ 63) with 9223372036854775808.
  change (2 ^ 64) with 18446744073709551616.
  intros Hz. destruct (Z_lt_le_dec z 0) as [Hneg|Hpos].
  - rewrite <- (Z_mod_plus_full z 1), Z.mod_small by lia.
    destruct (Z.ltb_spec (z + 1 * 18446744073709551616) 9223372036854775808);
      lia.
  - rewrite Z.mod_small by lia.
    destruct (Z.ltb_spec z 9223372036854775808); lia.
Qed.

Lemma wrap64_range (z : Z) : min_int64 <= wrap64 z <= max_int64.
Proof.
  unfold min_int64, max_int64, wrap64, signed.
  change (2 ^ (64 - 1)) with 9223372036854775808.
  change (2 ^ 63) with 9223372036854775808.
  change (2 ^ 64) with 18446744073709551616.
  pose proof (Z.mod_pos_bound z 18446744073709551616 eq_refl).
  destruct (Z.ltb_spec (z mod 18446744073709551616) 9223372036854775808); lia.
Qed.

(** The seed is the declared size less 36 unless the declared size is
    within 36 of the least int64, where the subtraction wraps around. *)
Lemma seed_no_wrap (declared : Z) :
  min_int64 + 36 <= declared <= max_int64 ->
  sub64 (sub64 declared 32) 4 = declared - 36.
Proof.
  unfold min_int64, max_int64. intros H. unfold sub64.
  rewrite (wrap64_small (declared - 32)) by (unfold min_int64, max_int64; lia).
  rewrite wrap64_small by (unfold min_int64, max_int64; lia). lia.
Qed.

Lemma seed_wraps_at_min : sub64 (sub64 min_int64 32) 4 = max_int64 - 35.
Proof. reflexivity. Qed.

(** No wrap-around inside the loop: a round starts with a positive
    counter and a record takes at most 148 from it. *)
Lemma afterRecord_no_wrap (size n : Z) :
  0 < size <= max_int64 -> 0 <= n <= 127 ->
  afterRecord size n = size - (4 + 1 + n + 16).
Proof.
  unfold max_int64. intros Hs Hn. unfold afterRecord, sub64.
  rewrite (wrap64_small (size - 4)) by (unfold min_int64, max_int64; lia).
  rewrite (wrap64_small (size - 4 - 1)) by (unfold min_int64, max_int64; lia).
  rewrite (wrap64_small (size - 4 - 1 - n)) by (unfold min_int64, max_int64; lia).
  rewrite wrap64_small by (unfold min_int64, max_int64; lia). lia.
Qed.

Lemma trackLoop_stops fuel size tracks file :
  size <= 0 ->
  trackLoop fuel size tracks file = Returns ((tracks, nil_error, size), file).
Proof.
  intros Hs. destruct fuel; cbn [trackLoop];
    destruct (Z.ltb_spec 0 size); try lia; reflexivity.
Qed.

Lemma string_of_list_byte_length (l : list byte) :
  String.length (string_of_list_byte l) = List.length l.
Proof.
  unfold string_of_list_byte.
  induction l as [|b l IH]; cbn; [reflexivity|now rewrite IH].
Qed.

End Counter.

Section RegularFile.

Variables sizeBytes ver tempo rest : list byte.
Hypothesis Hsize : List.length sizeBytes = 8%nat.
Hypothesis Hver : List.length ver = 32%nat.
Hypothesis Htempo : List.length tempo = 4%nat.

(** A regular file with the signature and the three fixed fields in full. *)
Lemma decodeFuel_regular fuel :
  decodeFuel fuel
    (io.regular (signature ++ sizeBytes ++ ver ++ tempo ++ rest))
  = match trackLoop fuel
            (sub64 (sub64 (binary.decode binary.BigEndian binary.Int64
                             sizeBytes) 32) 4)
            [] (io.regular rest) with
    | Returns ((tracks, None, _), r5) =>
        Returns ((Some (mkPattern
                          (string_of_list_byte (bytes.Trim ver x00))
                          (math.Float32frombits
                             (binary.decode binary.LittleEndian
                                binary.Float32 tempo))
                          tracks), nil_error), r5)
    | Returns ((_, Some e, _), r5) => Returns ((None, Some e), r5)
    | Panics msg => Panics msg
    | OutOfFuel => OutOfFuel
    end.
Proof.
  apply (decodeFuel_after_header fuel _ nil_error
           (io.regular (sizeBytes ++ ver ++ tempo ++ rest)) _
           (io.regular (ver ++ tempo ++ rest)) _
           (io.regular (tempo ++ rest))).
  - unfold readHeader, io.bind, io.regular.
    rewrite Read_prefix; [reflexivity|discriminate|reflexivity].
  - unfold readContentSize, io.bind, io.regular.
    rewrite binary_Read_prefix by exact Hsize. reflexivity.
  - unfold readVersion, io.bind, io.regular.
    rewrite Read_prefix; [reflexivity|discriminate|].
    now rewrite zeros_length.
  - unfold readTempo, io.bind, io.regular.
    rewrite binary_Read_prefix by exact Htempo. reflexivity.
Qed.

End RegularFile.

(** C8, amended: a well-formed file whose declared payload size is 36
    decodes, with no error, to a pattern without tracks; more generally,
    whenever the declared size less 36 is zero or negative and the declared
    size is at least the least int64 plus 36, the loop returns at once
    without a read, and the decoding succeeds with no tracks.  The bound
    is needed because the code keeps the difference in an int64 counter,
    the declared size less 32 and then less 4: above the bound the counter
    is the declared size less 36, below it the subtraction wraps around. *)
Theorem no_tracks_when_counter_not_positive
  (sizeBytes ver tempo rest : list byte) :
  List.length sizeBytes = 8%nat ->
  List.length ver = 32%nat ->
  List.length tempo = 4%nat ->
  let declared := binary.decode binary.BigEndian binary.Int64 sizeBytes in
  let counter := sub64 (sub64 declared 32) 4 in
  let file := io.regular (signature ++ sizeBytes ++ ver ++ tempo ++ rest) in
  let pattern :=
    {| Version := string_of_list_byte (bytes.Trim ver x00);
       Tempo := math.Float32frombits
                  (binary.decode binary.LittleEndian binary.Float32 tempo);
       Tracks := [] |} in
  min_int64 + 36 <= declared ->
  declared - 36 <= 0 ->
  counter = declared - 36
  /\ (forall fuel tracks r,
        trackLoop fuel counter tracks r
        = Returns ((tracks, nil_error, counter), r))
  /\ decode file = Returns ((Some pattern, nil_error), io.regular rest)
  /\ (forall fs path,
        fs path = Some file ->
        DecodeFile fs path = Returns (Some pattern, nil_error)).
Proof.
  intros Hsize Hver Htempo declared counter file pattern Hmin Hd.
  assert (Hseed : counter = declared - 36).
  { subst counter. apply seed_no_wrap.
    split; [exact Hmin|]. unfold min_int64, max_int64 in *. lia. }
  assert (Hle : counter <= 0) by lia.
  assert (Hdec : decode file = Returns ((Some pattern, nil_error), io.regular rest)).
  { unfold decode, file.
    rewrite (decodeFuel_regular sizeBytes ver tempo rest Hsize Hver Htempo).
    fold declared. fold counter.
    rewrite trackLoop_stops by exact Hle. reflexivity. }
  splits; auto.
  - intros fuel tracks r. now apply trackLoop_stops.
  - intros fs path Hfile. unfold DecodeFile, os.Open.
    now rewrite Hfile, Hdec.
Qed.

Lemma no_tracks_when_counter_not_positive_witness :
  binary.decode binary.BigEndian binary.Int64
    [x00; x00; x00; x00; x00; x00; x00; x24] = 36
  /\ decode (io.regular (signature
                         ++ [x00; x00; x00; x00; x00; x00; x00; x24]
                         ++ (list_byte_of_string "0.808-alpha" ++ zeros 21)
                         ++ [x00; x00; xf0; x42] ++ []))
     = Returns ((Some {| Version := "0.808-alpha";
                         Tempo := S754_finite false 15728640 (-17);
                         Tracks := [] |}, nil_error), io.regular []).
Proof.
  split; [reflexivity|].
  apply (no_tracks_when_counter_not_positive
           [x00; x00; x00; x00; x00; x00; x00; x24]
           (list_byte_of_string "0.808-alpha" ++ zeros 21)
           [x00; x00; xf0; x42] []);
    try reflexivity; discriminate.
Defined.

(** C8 as it is worded fails at the least int64.  The file
    [least_size_file] is well formed up to the tempo and declares
    -2^63, so the declared size less 36 is negative; but the counter of
    the code is 2^63 - 36, the loop body runs, [readTrack] finds the end of
    the file and [DecodeFile] returns [io.EOF] instead of a pattern without
    tracks. *)
Lemma least_size_enters_loop :
  let sizeBytes := [x80; x00; x00; x00; x00; x00; x00; x00] in
  let declared := binary.decode binary.BigEndian binary.Int64 sizeBytes in
  least_size_file
  = signature ++ sizeBytes
    ++ (list_byte_of_string "0.808-alpha" ++ zeros 21)
    ++ [x00; x00; xf0; x42] ++ []
  /\ declared = min_int64
  /\ declared - 36 <= 0
  /\ sub64 (sub64 declared 32) 4 = 2 ^ 63 - 36
  /\ trackLoop 1 (sub64 (sub64 declared 32) 4) [] (io.regular [])
     = Returns (([], Some EOF, 2 ^ 63 - 36), [])
  /\ decode (io.regular least_size_file) = Returns ((None, Some EOF), [])
  /\ DecodeFile (single_file "least.splice" (io.regular least_size_file))
       "least.splice"
     = Returns (None, Some EOF)
  /\ ~ (forall sizeBytes ver tempo rest : list byte,
          List.length sizeBytes = 8%nat ->
          List.length ver = 32%nat ->
          List.length tempo = 4%nat ->
          binary.decode binary.BigEndian binary.Int64 sizeBytes - 36 <= 0 ->
          exists p,
            decode (io.regular (signature ++ sizeBytes ++ ver ++ tempo ++ rest))
            = Returns ((Some p, nil_error), io.regular rest)
            /\ Tracks p = []).
Proof.
  cbv zeta. splits; try reflexivity.
  - vm_compute. discriminate.
  - intros H.
    destruct (H [x80; x00; x00; x00; x00; x00; x00; x00]
                (list_byte_of_string "0.808-alpha" ++ zeros 21)
                [x00; x00; xf0; x42] [] eq_refl eq_refl eq_refl)
      as (p & Hp & _).
    + vm_compute. discriminate.
    + vm_compute in Hp. discriminate Hp.
Qed.



(** * The end of a run *)

(** [DecodeFile] always ends, by a return or a panic. *)
Lemma DecodeFile_fuel fs path : DecodeFile fs path <> OutOfFuel.
Proof.
  unfold DecodeFile, os.Open. destruct (fs path) as [f|]; [|discriminate].
  destruct (decodeFuel_fuel (S (io.available f)) f) as [_ Hne]; [lia|].
  destruct (decode f) as [[res r]|m|]; try discriminate. now elim Hne.
Qed.

(** * Files laid out as the doc comment of [DecodeFile] says *)

Section Put.

Lemma unsigned_of_byte_of_Z (z : Z) : unsigned_of_byte (byte_of_Z z) = z mod 256.
Proof.
  unfold unsigned_of_byte, byte_of_Z.
  pose proof (Z.mod_pos_bound z 256 eq_refl) as Hz.
  destruct (Byte.of_N (Z.to_N (z mod 256))) as [b|] eqn:Hb.
  - apply Byte.to_of_N in Hb. rewrite Hb. apply Z2N.id. lia.
  - exfalso.
    pose proof (Byte.to_of_N_option_map (Z.to_N (z mod 256))) as H.
    rewrite Hb in H. cbn [option_map] in H.
    destruct (N.leb_spec (Z.to_N (z mod 256)) 255); [discriminate|lia].
Qed.

Lemma putLittleEndian_length (n : nat) (v : Z) :
  List.length (putLittleEndian n v) = n.
Proof.
  revert v; induction n as [|n IH]; intros v; cbn; [reflexivity|now rewrite IH].
Qed.

Lemma littleEndian_put (n : nat) (v : Z) :
  binary.littleEndian (putLittleEndian n v) = v mod 256 ^ Z.of_nat n.
Proof.
  revert v; induction n as [|n IH]; intros v.
  - cbn. now rewrite Z.mod_1_r.
  - cbn [putLittleEndian binary.littleEndian].
    rewrite unsigned_of_byte_of_Z, IH, Nat2Z.inj_succ, Z.pow_succ_r by lia.
    rewrite Z.rem_mul_r; [reflexivity|lia|].
    apply Z.pow_pos_nonneg; lia.
Qed.

Lemma putUint_length order (n : nat) (v : Z) :
  List.length (putUint order n v) = n.
Proof.
  destruct order; cbn [putUint];
    [rewrite length_rev|]; apply putLittleEndian_length.
Qed.

Lemma Uint_putUint order (n : nat) (v : Z) :
  binary.Uint order (putUint order n v) = v mod 256 ^ Z.of_nat n.
Proof.
  destruct order; cbn [putUint binary.Uint];
    [rewrite rev_involutive|]; apply littleEndian_put.
Qed.

Lemma signed_mod (w v : Z) :
  0 < w -> - 2 ^ (w - 1) <= v < 2 ^ (w - 1) -> signed w (v mod 2 ^ w) = v.
Proof.
  intros Hw Hv. unfold signed.
  assert (Hp : 2 ^ w = 2 * 2 ^ (w - 1)).
  { replace w with (Z.succ (w - 1)) at 1 by lia. apply Z.pow_succ_r. lia. }
  destruct (Z_lt_le_dec v 0) as [Hneg|Hpos].
  - rewrite <- (Z_mod_plus_full v 1), Z.mod_small by lia.
    destruct (Z.ltb_spec (v + 1 * 2 ^ w) (2 ^ (w - 1))); lia.
  - rewrite Z.mod_small by lia.
    destruct (Z.ltb_spec v (2 ^ (w - 1))); lia.
Qed.

Lemma decode_put_int32 (v : Z) :
  - 2 ^ 31 <= v < 2 ^ 31 ->
  binary.decode binary.LittleEndian binary.Int32
    (putUint binary.LittleEndian 4 v) = v.
Proof.
  intros Hv. cbn [binary.decode]. rewrite Uint_putUint.
  change (256 ^ Z.of_nat 4) with (2 ^ 32). apply signed_mod; [lia|exact Hv].
Qed.

Lemma decode_put_int64 (v : Z) :
  min_int64 <= v <= max_int64 ->
  binary.decode binary.BigEndian binary.Int64
    (putUint binary.BigEndian 8 v) = v.
Proof.
  unfold min_int64, max_int64. intros Hv. cbn [binary.decode].
  rewrite Uint_putUint.
  change (256 ^ Z.of_nat 8) with (2 ^ 64). apply signed_mod; [lia|].
  change (2 ^ (64 - 1)) with (2 ^ 63). lia.
Qed.

Lemma decode_put_float32 (u : Z) :
  0 <= u < 2 ^ 32 ->
  binary.decode binary.LittleEndian binary.Float32
    (putUint binary.LittleEndian 4 u) = u.
Proof.
  intros Hu. cbn [binary.decode]. rewrite Uint_putUint.
  change (256 ^ Z.of_nat 4) with (2 ^ 32). now apply Z.mod_small.
Qed.

Lemma decode_name_length (n : nat) :
  (n <= 127)%nat ->
  binary.decode binary.LittleEndian binary.Int8 [byte_of_Z (Z.of_nat n)]
  = Z.of_nat n.
Proof.
  intros Hn. rewrite int8_of_byte, unsigned_of_byte_of_Z.
  rewrite Z.mod_small by lia.
  destruct (Z.ltb_spec (Z.of_nat n) 128); lia.
Qed.

Lemma list_byte_of_string_length (s : string) :
  List.length (list_byte_of_string s) = String.length s.
Proof.
  rewrite <- (string_of_list_byte_of_string s) at 2.
  now rewrite string_of_list_byte_length.
Qed.

Lemma stepActive_stepByte (steps : list bool) :
  map stepActive (map stepByte steps) = steps.
Proof.
  induction steps as [|[|] steps IH]; cbn [map]; [reflexivity| |];
    now rewrite IH.
Qed.

End Put.

Section LayoutRead.

Lemma Read_exact (pre rest buf : list byte) (r : io.Reader) :
  List.length pre = List.length buf ->
  io.Read buf (io.Data (pre ++ rest) :: r)
  = Returns ((pre, List.length buf, nil_error), io.Data rest :: r).
Proof.
  intros Hlen. destruct buf as [|b buf].
  - destruct pre; [reflexivity|discriminate Hlen].
  - apply Read_prefix; [discriminate|exact Hlen].
Qed.

Lemma stepsLoop_prefix (n : nat) :
  forall i steps bs more r,
    List.length bs = n ->
    (i + n <= List.length steps)%nat ->
    stepsLoop n i steps (io.Data (bs ++ more) :: r)
    = Returns ((firstn i steps ++ map stepActive bs ++ skipn (i + n) steps,
                nil_error), io.Data more :: r).
Proof.
  induction n as [|n IH]; intros i steps bs more r Hlen Hi.
  - destruct bs; [|discriminate Hlen]. cbn.
    now rewrite Nat.add_0_r, firstn_skipn.
  - destruct bs as [|b bs]; [discriminate Hlen|].
    cbn [stepsLoop]. unfold io.bind.
    change ((b :: bs) ++ more) with ([b] ++ (bs ++ more)).
    rewrite binary_Read_prefix by reflexivity.
    fold (stepActive b).
    rewrite IH; [|now injection Hlen|rewrite store_length; lia].
    rewrite store_firstn, store_skipn by lia.
    cbn [map]. rewrite <- app_assoc. cbn [app].
    now replace (S i + n)%nat with (i + S n)%nat by lia.
Qed.

(** A record laid out as lines 20 to 24 say is read back as the track it
    holds, and the file is left at the byte after the record. *)
Lemma readTrack_layout (size : Z) (t : Track) (more : list byte) (r : io.Reader) :
  wellFormedTrack t ->
  readTrack size (io.Data (layoutTrack t ++ more) :: r)
  = Returns ((Some t, nil_error,
              afterRecord size (Z.of_nat (String.length (Name t)))),
             io.Data more :: r).
Proof.
  intros (Hid & Hname & Hsteps). destruct t as [id name steps].
  cbn [ID Name Steps] in *.
  unfold layoutTrack, readTrack, io.bind. cbn [ID Name Steps].
  rewrite <- !app_assoc.
  rewrite binary_Read_prefix by (now rewrite putUint_length).
  rewrite decode_put_int32 by exact Hid.
  rewrite binary_Read_prefix by reflexivity.
  rewrite decode_name_length by exact Hname.
  unfold make. destruct (Z.ltb_spec (Z.of_nat (String.length name)) 0); [lia|].
  cbn [io.ret]. rewrite Nat2Z.id.
  rewrite Read_exact
    by (now rewrite zeros_length, list_byte_of_string_length).
  rewrite stepsLoop_prefix;
    [|now rewrite length_map|rewrite repeat_length; lia].
  cbn [firstn app]. rewrite skipn_all2 by (rewrite repeat_length; lia).
  rewrite app_nil_r, stepActive_stepByte, string_of_list_byte_of_string.
  reflexivity.
Qed.

Lemma layoutTrack_length (t : Track) :
  List.length (Steps t) = 16%nat ->
  Z.of_nat (List.length (layoutTrack t)) = recordLength t.
Proof.
  intros Hs. unfold layoutTrack, recordLength.
  rewrite !length_app, putUint_length, list_byte_of_string_length, length_map, Hs.
  cbn [List.length]. lia.
Qed.

(** The loop on records laid out one after the other: it reads the records
    the counter selects and stops in front of what follows them. *)
Lemma trackLoop_layout (tracks : list Track) :
  forall fuel counter acc more,
    Forall wellFormedTrack tracks ->
    counterSelects counter tracks ->
    counter <= max_int64 ->
    (List.length tracks <= fuel)%nat ->
    trackLoop fuel counter acc
      (io.regular (List.concat (map layoutTrack tracks) ++ more))
    = Returns ((acc ++ tracks, nil_error, counter - recordsLength tracks),
               io.regular more).
Proof.
  induction tracks as [|t tracks IH];
    intros fuel counter acc more Hwf Hsel Hmax Hfuel.
  - cbn [counterSelects] in Hsel. cbn [map List.concat app recordsLength].
    rewrite trackLoop_stops by exact Hsel.
    now rewrite app_nil_r, Z.sub_0_r.
  - destruct Hsel as [Hpos Hsel]. inversion Hwf as [|? ? Ht Hts]; subst.
    destruct fuel as [|fuel]; [cbn in Hfuel; lia|].
    cbn [trackLoop]. destruct (Z.ltb_spec 0 counter); [|lia].
    unfold io.bind, io.regular.
    cbn [map List.concat]. rewrite <- app_assoc.
    rewrite readTrack_layout by exact Ht.
    destruct Ht as (_ & Hname & _).
    rewrite afterRecord_no_wrap by lia.
    fold (recordLength t).
    fold (io.regular (List.concat (map layoutTrack tracks) ++ more)).
    rewrite IH; auto.
    + rewrite <- app_assoc. cbn [app recordsLength].
      do 3 f_equal. lia.
    + unfold recordLength. lia.
    + cbn in Hfuel. lia.
Qed.

End LayoutRead.

Section LayoutVersion.

Variable c : byte.

Lemma trimRightByte_repeat (k : nat) : bytes.trimRightByte (repeat c k) c = [].
Proof.
  induction k as [|k IH]; [reflexivity|].
  cbn [repeat bytes.trimRightByte]. rewrite IH.
  now rewrite (Byte.byte_dec_lb (eq_refl c)).
Qed.

Lemma trimRightByte_padding (s : list byte) (k : nat) :
  bytes.trimRightByte (s ++ repeat c k) c = bytes.trimRightByte s c.
Proof.
  induction s as [|b s IH]; [apply trimRightByte_repeat|].
  cbn [app bytes.trimRightByte]. now rewrite IH.
Qed.

Lemma trimRightByte_id (s : list byte) :
  hd_error (rev s) <> Some c -> bytes.trimRightByte s c = s.
Proof.
  induction s as [|b s IH]; [reflexivity|]. intros Hlast.
  cbn [bytes.trimRightByte]. destruct s as [|x s].
  - cbn in *. destruct (Byte.eqb b c) eqn:Hb; [|reflexivity].
    apply Byte.byte_dec_bl in Hb. congruence.
  - rewrite IH; [reflexivity|].
    change (rev (b :: x :: s)) with (rev (x :: s) ++ [b]) in Hlast.
    rewrite hd_error_app_ne in Hlast; [exact Hlast|].
    apply rev_ne. discriminate.
Qed.

Lemma trimLeftByte_id (s : list byte) :
  hd_error s <> Some c -> bytes.trimLeftByte s c = s.
Proof.
  destruct s as [|b s]; [reflexivity|]. cbn. intros Hhd.
  destruct (Byte.eqb b c) eqn:Hb; [|reflexivity].
  apply Byte.byte_dec_bl in Hb. congruence.
Qed.

Lemma Trim_padding (s : list byte) (k : nat) :
  hd_error s <> Some c -> hd_error (rev s) <> Some c ->
  bytes.Trim (s ++ repeat c k) c = s.
Proof.
  intros Hhd Hlast. unfold bytes.Trim.
  now rewrite trimRightByte_padding, trimRightByte_id, trimLeftByte_id.
Qed.

End LayoutVersion.

Lemma layoutVersion_length (version : string) :
  (String.length version <= 32)%nat ->
  List.length (layoutVersion version) = 32%nat.
Proof.
  intros H. unfold layoutVersion.
  rewrite length_app, list_byte_of_string_length, zeros_length. lia.
Qed.

Lemma counterSelects_sums (tracks : list Track) :
  forall counter,
    counterSelects counter tracks
    <-> counter <= recordsLength tracks
        /\ (tracks <> [] -> recordsLength (removelast tracks) < counter).
Proof.
  assert (Hnn : forall ts, 0 <= recordsLength ts).
  { induction ts as [|t ts IH]; cbn [recordsLength]; unfold recordLength; lia. }
  induction tracks as [|t tracks IH]; intros counter; cbn [counterSelects].
  - cbn [recordsLength]. split; [intros H; split; [exact H|congruence]|tauto].
  - rewrite IH. cbn [recordsLength]. destruct tracks as [|t' tracks].
    + cbn [removelast recordsLength]. split.
      * intros (H0 & H1 & _). split; [lia|intros _; lia].
      * intros (H1 & H2). specialize (H2 ltac:(discriminate)).
        split; [lia|]. split; [lia|congruence].
    + change (removelast (t :: t' :: tracks))
        with (t :: removelast (t' :: tracks)).
      cbn [recordsLength].
      pose proof (Hnn (removelast (t' :: tracks))) as Hr.
      assert (Hl : 0 < recordLength t) by (unfold recordLength; lia).
      split.
      * intros (H0 & H1 & H2). specialize (H2 ltac:(discriminate)).
        cbn [recordsLength] in H1. split; [lia|intros _; lia].
      * intros (H1 & H2). specialize (H2 ltac:(discriminate)).
        split; [lia|]. split; [cbn [recordsLength]; lia|intros _; lia].
Qed.

Lemma layout_count (tracks : list Track) :
  (List.length tracks <= List.length (List.concat (map layoutTrack tracks)))%nat.
Proof.
  induction tracks as [|t tracks IH]; cbn [List.length map List.concat]; [lia|].
  rewrite length_app. unfold layoutTrack at 1.
  rewrite length_app, putUint_length. lia.
Qed.

(** X1: a regular file laid out as the doc comment of [DecodeFile] says
    decodes to the fields it was laid out from, under these conditions: the
    version has at most 32 bytes and no zero byte at either end (it is
    padded with zeros to 32 bytes, and zeros at both ends are trimmed); the
    tempo is a bit pattern of 32 bits; every track has an ID in the int32
    range, a name of at most 127 bytes and exactly 16 steps; the declared
    size is an int64 not below the least int64 plus 36 (below, the counter
    wraps around) and it ends within the last record: above 36 plus the
    records before the last, at most 36 plus all records; at most 36 for
    no record.  Whatever follows the last record is left unread. *)
Theorem layout_decodes
  (declared : Z) (version : string) (tempo : Z) (tracks : list Track)
  (rest : list byte) :
  wellFormedVersion version ->
  0 <= tempo < 2 ^ 32 ->
  Forall wellFormedTrack tracks ->
  min_int64 + 36 <= declared <= max_int64 ->
  declared - 36 <= recordsLength tracks ->
  (tracks <> [] -> recordsLength (removelast tracks) < declared - 36) ->
  decode (io.regular (layoutFile declared version tempo tracks ++ rest))
  = Returns ((Some {| Version := version;
                      Tempo := math.Float32frombits tempo;
                      Tracks := tracks |}, nil_error), io.regular rest).
Proof.
  intros (Hvl & Hvh & Hvt) Htempo Hwf Hdecl Hle Hgt.
  unfold decode, layoutFile. rewrite <- !app_assoc.
  rewrite decodeFuel_regular;
    [|now rewrite putUint_length|now apply layoutVersion_length
     |now rewrite putUint_length].
  rewrite decode_put_int64 by (unfold min_int64, max_int64 in *; lia).
  rewrite seed_no_wrap by exact Hdecl.
  rewrite decode_put_float32 by exact Htempo.
  unfold layoutVersion, zeros. rewrite Trim_padding by assumption.
  rewrite string_of_list_byte_of_string.
  rewrite trackLoop_layout; auto.
  - apply counterSelects_sums. auto.
  - unfold max_int64 in *. lia.
  - pose proof (layout_count tracks).
    unfold io.available, io.regular. cbn [io.contents].
    rewrite !length_app. lia.
Qed.

Lemma layout_decodes_witness :
  layoutFile 61 "0.808-alpha" 1123024896
    [ {| ID := 0; Name := "kick"; Steps := kick_steps |} ] = kick_file
  /\ decode (io.regular
               (layoutFile 37 "0.808-alpha" 1123024896
                  [ {| ID := 0; Name := "kick"; Steps := kick_steps |} ]
                ++ [x2a]))
     = Returns ((Some {| Version := "0.808-alpha";
                         Tempo := math.Float32frombits 1123024896;
                         Tracks := [ {| ID := 0; Name := "kick";
                                        Steps := kick_steps |} ] |},
                 nil_error), io.regular [x2a]).
Proof.
  split; [reflexivity|].
  apply (layout_decodes 37 "0.808-alpha" 1123024896
           [ {| ID := 0; Name := "kick"; Steps := kick_steps |} ] [x2a]).
  - split; [cbn; lia|]. split; discriminate.
  - lia.
  - constructor; [|constructor].
    split; [cbn; lia|]. split; [cbn; lia|reflexivity].
  - unfold min_int64, max_int64. lia.
  - cbn. lia.
  - intros _. cbn. lia.
Defined.

(** * What a decoded pattern and a returned error can be *)

(** A pattern is returned after the four fixed fields were read without an
    error and the loop ended without one. *)
Lemma decodeFuel_success fuel file p err file' :
  decodeFuel fuel file = Returns ((Some p, err), file') ->
  err = nil_error
  /\ exists herr r1 declared r2 r3 r4 counter,
      readHeader file = Returns (("SPLICE", herr), r1)
      /\ readContentSize r1 = Returns ((declared, nil_error), r2)
      /\ readVersion r2 = Returns ((Version p, nil_error), r3)
      /\ readTempo r3 = Returns ((Tempo p, nil_error), r4)
      /\ trackLoop fuel (sub64 (sub64 declared 32) 4) [] r4
         = Returns ((Tracks p, nil_error, counter), file').
Proof.
  unfold decodeFuel, io.bind, io.ret.
  destruct (readHeader file) as [[[h e1] r1]|?|] eqn:H1; try discriminate.
  destruct (String.eqb_spec h "SPLICE") as [->|_]; [|discriminate].
  cbn [negb].
  destruct (readContentSize r1) as [[[sz [e2|]] r2]|?|] eqn:H2;
    try discriminate.
  destruct (readVersion r2) as [[[v [e3|]] r3]|?|] eqn:H3; try discriminate.
  destruct (readTempo r3) as [[[t [e4|]] r4]|?|] eqn:H4; try discriminate.
  destruct (trackLoop fuel (sub64 (sub64 sz 32) 4) [] r4)
    as [[[[tracks [e5|]] sz'] r5]|?|] eqn:Hloop; try discriminate.
  intros H. injection H as <- <- <-. split; [reflexivity|].
  exists e1, r1, sz, r2, r3, r4, sz'. cbn [Version Tempo Tracks]. splits; auto.
Qed.

Lemma littleEndian_range (bs : list byte) :
  0 <= binary.littleEndian bs < 256 ^ Z.of_nat (List.length bs).
Proof.
  induction bs as [|b bs IH]; [cbn; lia|].
  cbn [binary.littleEndian List.length].
  rewrite Nat2Z.inj_succ, Z.pow_succ_r by lia.
  pose proof (unsigned_of_byte_range b). lia.
Qed.

Lemma int32_range (bs : list byte) :
  List.length bs = 4%nat ->
  - 2 ^ 31 <= binary.decode binary.LittleEndian binary.Int32 bs < 2 ^ 31.
Proof.
  intros Hlen. cbn [binary.decode binary.Uint]. unfold signed.
  pose proof (littleEndian_range bs) as Hr. rewrite Hlen in Hr.
  change (256 ^ Z.of_nat 4) with 4294967296 in Hr.
  change (2 ^ (32 - 1)) with 2147483648.
  change (2 ^ 32) with 4294967296. change (2 ^ 31) with 2147483648.
  destruct (Z.ltb_spec (binary.littleEndian bs) 2147483648); lia.
Qed.

Lemma readTrack_well_formed size r t err size' r' :
  readTrack size r = Returns ((Some t, err, size'), r') ->
  wellFormedTrack t.
Proof.
  intros H.
  destruct (readTrack_spec size r)
    as [(idb & nb & r2 & Heq & _)
       |[(e & sz & r2 & Heq & _)
        |(idb & nb & got & stepBytes & r2 & Heq & Hid & Hpos & Hgot & Hst & Hc)]];
    [rewrite Heq in H; discriminate H..|].
  pose proof (int8_of_byte_range nb) as Hr.
  remember (binary.decode binary.LittleEndian binary.Int8 [nb]) as nl eqn:Hnl.
  clear Hnl. rewrite Heq in H. injection H as <- _ _ _.
  unfold wellFormedTrack. cbn [ID Name Steps]. splits.
  - now apply int32_range.
  - now apply int32_range.
  - rewrite string_of_list_byte_length, length_app, zeros_length. lia.
  - now rewrite length_map.
Qed.

Lemma readVersion_well_formed r v r' :
  readVersion r = Returns ((v, nil_error), r') -> wellFormedVersion v.
Proof.
  intros H.
  destruct (readVersion_returns r) as (v0 & err & r0 & Heq & _ & _ & Hok).
  rewrite Heq in H. injection H as -> -> ->.
  destruct (Hok eq_refl) as (buf & n & Hread & ->).
  destruct (Read_returns r (zeros 32))
    as (bs & k & e & r1 & Heq1 & Hlen & _).
  rewrite Hread in Heq1. injection Heq1 as <- <- <- <-.
  rewrite zeros_length in Hlen.
  destruct (Trim_spec x00 buf) as (l & t & Hbuf & Hh & Hl).
  unfold wellFormedVersion.
  rewrite string_of_list_byte_length, list_byte_of_string_of_list_byte.
  splits; auto.
  apply (f_equal (@List.length byte)) in Hbuf.
  rewrite !length_app in Hbuf. lia.
Qed.

(** X2: what [DecodeFile] returns as a pattern is always within what the
    format can hold: the version has at most 32 bytes and no zero byte at
    either end, every track has an ID in the int32 range, a name of at most
    127 bytes and sixteen steps.  It comes with a nil error. *)
Theorem decoded_pattern_well_formed
  (fs : os.FileSystem) (path : string) (p : Pattern) (err : error) :
  DecodeFile fs path = Returns (Some p, err) ->
  err = nil_error
  /\ wellFormedVersion (Version p)
  /\ Forall wellFormedTrack (Tracks p).
Proof.
  intros H. unfold DecodeFile, os.Open in H.
  destruct (fs path) as [f|]; [|discriminate].
  destruct (decode f) as [[res r']|?|] eqn:Hdec; try discriminate.
  injection H as ->. unfold decode in Hdec.
  apply decodeFuel_success in Hdec.
  destruct Hdec as (-> & herr & r1 & sz & r2 & r3 & r4 & c & _ & _ & Hv & _ & Hloop).
  splits; auto.
  - eapply readVersion_well_formed, Hv.
  - eapply trackLoop_invariant; [|constructor|exact Hloop].
    intros. eapply readTrack_well_formed; eassumption.
Qed.

Lemma decoded_pattern_well_formed_witness :
  DecodeFile (single_file "kick.splice" (io.regular kick_file)) "kick.splice"
  = Returns (Some {| Version := "0.808-alpha";
                     Tempo := S754_finite false 15728640 (-17);
                     Tracks := [ {| ID := 0; Name := "kick";
                                    Steps := kick_steps |} ] |}, nil_error)
  /\ wellFormedVersion "0.808-alpha"
  /\ Forall wellFormedTrack [ {| ID := 0; Name := "kick"; Steps := kick_steps |} ].
Proof.
  split; [reflexivity|].
  apply (decoded_pattern_well_formed
           (single_file "kick.splice" (io.regular kick_file)) "kick.splice"
           {| Version := "0.808-alpha";
              Tempo := S754_finite false 15728640 (-17);
              Tracks := [ {| ID := 0; Name := "kick";
                             Steps := kick_steps |} ] |} nil_error).
  reflexivity.
Defined.

Lemma trackLoop_error (fuel : nat) :
  forall size acc r tracks e size' r',
    trackLoop fuel size acc r = Returns ((tracks, Some e, size'), r') ->
    IsIOError e.
Proof.
  induction fuel as [|fuel IH]; intros size acc r tracks e size' r';
    cbn [trackLoop]; destruct (0 <? size); unfold io.bind, io.ret;
    try discriminate.
  destruct (readTrack_spec size r)
    as [(idb & nb & r2 & Heq & _)
       |[(e0 & sz & r2 & Heq & Hio & _)
        |(idb & nb & got & stepBytes & r2 & Heq & _)]];
    rewrite Heq; try discriminate.
  - intros H. injection H as _ <- _ _. exact Hio.
  - apply IH.
Qed.

(** X3: the errors of [DecodeFile].  An error never comes with a pattern,
    and it is the error of [os.Open], or the wrong-signature error built
    from a header other than SPLICE, or an error of a read ([io.EOF],
    [io.ErrUnexpectedEOF], an error of the device). *)
Theorem DecodeFile_errors
  (fs : os.FileSystem) (path : string) (res : option Pattern) (e : Error) :
  DecodeFile fs path = Returns (res, Some e) ->
  res = None
  /\ ((fs path = None /\ e = ENOENT)
      \/ (exists header, header <> "SPLICE" /\ e = invalid_header header)
      \/ IsIOError e).
Proof.
  unfold DecodeFile, os.Open. destruct (fs path) as [f|];
    [|intros H; injection H as <- <-; auto].
  unfold decode, decodeFuel, io.bind, io.ret.
  destruct (readHeader_returns f) as (h & e1 & r1 & -> & _).
  destruct (String.eqb_spec h "SPLICE") as [->|Hne]; cbn [negb].
  2:{ intros H; injection H as <- <-. split; [reflexivity|].
      right; left. eauto. }
  destruct (readContentSize_returns r1) as (sz & e2 & r2 & -> & _ & He2 & _).
  destruct e2 as [e2|];
    [intros H; injection H as <- <-; split; [reflexivity|right; right; eauto]|].
  destruct (readVersion_returns r2) as (v & e3 & r3 & -> & _ & He3 & _).
  destruct e3 as [e3|];
    [intros H; injection H as <- <-; split; [reflexivity|right; right; eauto]|].
  destruct (readTempo_returns r3) as (t & e4 & r4 & -> & _ & He4 & _).
  destruct e4 as [e4|];
    [intros H; injection H as <- <-; split; [reflexivity|right; right; eauto]|].
  destruct (trackLoop (S (io.available f)) (sub64 (sub64 sz 32) 4) [] r4)
    as [[[[tracks [e5|]] sz'] r5]|msg|] eqn:Hloop; try discriminate.
  intros H; injection H as <- <-. split; [reflexivity|].
  right; right. eapply trackLoop_error, Hloop.
Qed.

Lemma DecodeFile_errors_witness :
  DecodeFile (single_file "kick.splice" (io.regular (firstn 52 kick_file)))
    "kick.splice" = Returns (None, Some ErrUnexpectedEOF)
  /\ IsIOError ErrUnexpectedEOF.
Proof.
  split; [reflexivity|].
  destruct (DecodeFile_errors
              (single_file "kick.splice" (io.regular (firstn 52 kick_file)))
              "kick.splice" None ErrUnexpectedEOF eq_refl)
    as [_ [[H _]|[(h & _ & H)|H]]]; [discriminate H|discriminate H|exact H].
Defined.

(** * Regular files that end too early *)

Section Regular.

Lemma Read_regular (buf y : list byte) :
  io.Read buf (io.regular y)
  = match buf, y with
    | [], _ => Returns (([], O, nil_error), io.regular y)
    | _ :: _, [] => Returns ((buf, O, Some EOF), [])
    | _ :: _, _ :: _ =>
        Returns ((firstn (List.length buf) y
                  ++ skipn (List.length (firstn (List.length buf) y)) buf,
                  List.length (firstn (List.length buf) y), nil_error),
                 io.regular (skipn (List.length buf) y))
    end.
Proof. destruct buf, y; reflexivity. Qed.

Lemma ReadFull_short (buf y : list byte) :
  (List.length y < List.length buf)%nat ->
  io.ReadFull buf (io.regular y)
  = Returns ((y ++ skipn (List.length y) buf, List.length y,
              Some (eofAfter (List.length y))), []).
Proof.
  intros Hlt. destruct buf as [|b buf]; [cbn in Hlt; lia|].
  unfold io.regular. cbn [io.ReadFull].
  destruct (Nat.ltb_spec (List.length y) (List.length (b :: buf))); [|lia].
  destruct (skipn (List.length y) (b :: buf)) as [|z zs] eqn:Hsk.
  - apply (f_equal (@List.length byte)) in Hsk.
    rewrite length_skipn in Hsk. cbn [List.length] in *. lia.
  - cbn [io.ReadFull]. rewrite Nat.add_0_r. unfold eofAfter.
    destruct (0 <? List.length y)%nat; reflexivity.
Qed.

Lemma ReadFull_regular_ok (buf y bs : list byte) (k : nat) (r' : io.Reader) :
  io.ReadFull buf (io.regular y) = Returns ((bs, k, nil_error), r') ->
  (List.length buf <= List.length y)%nat
  /\ bs = firstn (List.length buf) y
  /\ r' = io.regular (skipn (List.length buf) y).
Proof.
  destruct (Nat.ltb_spec (List.length y) (List.length buf)) as [Hlt|Hge].
  - rewrite ReadFull_short by exact Hlt. discriminate.
  - destruct buf as [|b buf].
    + cbn. intros H; injection H as <- _ <-. splits; auto; lia.
    + unfold io.regular. cbn [io.ReadFull].
      destruct (Nat.ltb_spec (List.length y) (List.length (b :: buf))); [lia|].
      intros Heq; injection Heq as <- _ <-. auto.
Qed.

Lemma binary_Read_short order k (y : list byte) :
  (List.length y < binary.size k)%nat ->
  binary.Read order k (io.regular y)
  = Returns ((0, Some (eofAfter (List.length y))), []).
Proof.
  intros Hlt. unfold binary.Read, io.bind.
  rewrite ReadFull_short by (now rewrite zeros_length). reflexivity.
Qed.

Lemma binary_Read_regular_ok order k (y : list byte) (v : Z) (r' : io.Reader) :
  binary.Read order k (io.regular y) = Returns ((v, nil_error), r') ->
  (binary.size k <= List.length y)%nat
  /\ v = binary.decode order k (firstn (binary.size k) y)
  /\ r' = io.regular (skipn (binary.size k) y).
Proof.
  unfold binary.Read, io.bind.
  destruct (io.ReadFull (zeros (binary.size k)) (io.regular y))
    as [[[[bs n] [e|]] r1]|?|] eqn:Heq; try discriminate.
  apply ReadFull_regular_ok in Heq. rewrite zeros_length in Heq.
  destruct Heq as (Hle & -> & ->).
  unfold io.ret. intros H; injection H as <- <-. auto.
Qed.

End Regular.

(** X4: a file that ends before its 50 fixed bytes are there.  After the
    signature, [DecodeFile] returns the error of the first read that finds
    too little: [io.EOF] when that read finds nothing, which is also the
    case of the tempo after a version block cut short, and
    [io.ErrUnexpectedEOF] when the size or the tempo is cut in the middle. *)
Theorem truncated_header
  (fs : os.FileSystem) (path : string) (x : list byte) :
  fs path = Some (io.regular (signature ++ x)) ->
  (List.length x < 44)%nat ->
  DecodeFile fs path
  = Returns (None,
             Some (eofAfter (if (List.length x <? 8)%nat
                             then List.length x
                             else (List.length x - 40)%nat))).
Proof.
  intros Hfile Hlen. unfold DecodeFile, os.Open. rewrite Hfile.
  unfold decode, decodeFuel, io.bind.
  unfold readHeader at 1, io.bind, io.regular.
  rewrite Read_prefix; [|discriminate|reflexivity].
  cbn [io.ret String.eqb Ascii.eqb Bool.eqb negb andb
       string_of_list_byte signature list_byte_of_string].
  change (string_of_list_byte signature) with "SPLICE".
  cbn [String.eqb Ascii.eqb Bool.eqb negb andb].
  fold (io.regular x).
  destruct (Nat.ltb_spec (List.length x) 8) as [Hshort|Hsize].
  - unfold readContentSize, io.bind.
    rewrite binary_Read_short by exact Hshort. reflexivity.
  - rewrite <- (firstn_skipn 8 x) at 1.
    assert (H8 : List.length (firstn 8 x) = 8%nat)
      by (rewrite length_firstn; lia).
    unfold readContentSize, io.bind, io.regular.
    rewrite binary_Read_prefix by exact H8. cbn [io.ret].
    fold (io.regular (skipn 8 x)).
    assert (Hx' : List.length (skipn 8 x) = (List.length x - 8)%nat)
      by apply length_skipn.
    unfold readVersion, io.bind. rewrite Read_regular.
    cbn [zeros repeat].
    destruct (skipn 8 x) as [|c0 c] eqn:Hsk.
    + cbn [List.length] in Hx'.
      replace (List.length x - 40)%nat with O by lia. reflexivity.
    + cbn [io.ret].
      unfold readTempo, io.bind.
      rewrite binary_Read_short.
      * cbn [io.ret]. rewrite length_skipn, Hx'.
        cbn [List.length repeat].
        now replace (List.length x - 8 - 32)%nat
          with (List.length x - 40)%nat by lia.
      * rewrite length_skipn, Hx'. cbn [List.length repeat binary.size]. lia.
Qed.

Lemma truncated_header_witness :
  single_file "cut.splice" (io.regular (signature ++ [x00; x00; x00])) "cut.splice"
  = Some (io.regular (signature ++ [x00; x00; x00]))
  /\ DecodeFile
       (single_file "cut.splice" (io.regular (signature ++ [x00; x00; x00])))
       "cut.splice"
     = Returns (None, Some ErrUnexpectedEOF).
Proof.
  split; [reflexivity|].
  apply (truncated_header
           (single_file "cut.splice" (io.regular (signature ++ [x00; x00; x00])))
           "cut.splice" [x00; x00; x00]).
  - reflexivity.
  - cbn. lia.
Defined.

Lemma Read_regular_some (buf y : list byte) :
  buf <> [] -> y <> [] ->
  io.Read buf (io.regular y)
  = Returns ((firstn (List.length buf) y
              ++ skipn (List.length (firstn (List.length buf) y)) buf,
              List.length (firstn (List.length buf) y), nil_error),
             io.regular (skipn (List.length buf) y)).
Proof.
  intros Hb Hy. rewrite Read_regular.
  destruct buf; [now elim Hb|]. destruct y; [now elim Hy|]. reflexivity.
Qed.

(** X5: [readVersion] does not ask for 32 bytes, it takes what one [Read]
    gives.  On a regular file with fewer than 32 bytes left, but at least
    one, it returns no error: the version is what is left, trimmed, and the
    file is at its end. *)
Theorem readVersion_short_block (x : list byte) :
  x <> [] ->
  (List.length x <= 32)%nat ->
  readVersion (io.regular x)
  = Returns ((string_of_list_byte (bytes.Trim x x00), nil_error),
             io.regular []).
Proof.
  intros Hne Hlen. unfold readVersion, io.bind.
  rewrite Read_regular_some; [|discriminate|exact Hne].
  cbn [io.ret]. rewrite zeros_length.
  rewrite firstn_all2 by exact Hlen.
  rewrite (skipn_all2 (n := 32) x) by exact Hlen.
  rewrite skipn_zeros. unfold bytes.Trim, zeros.
  now rewrite trimRightByte_padding.
Qed.

Lemma readVersion_short_block_witness :
  list_byte_of_string "0.708" <> []
  /\ readVersion (io.regular (list_byte_of_string "0.708"))
     = Returns (("0.708", nil_error), io.regular []).
Proof.
  split; [discriminate|].
  apply (readVersion_short_block (list_byte_of_string "0.708")).
  - discriminate.
  - cbn. lia.
Defined.

(** * Files that decode *)

(** The header compares equal to SPLICE only when the [Read] stored all six
    bytes of it. *)
Lemma header_is_signature (r r1 : io.Reader) (herr : error) :
  readHeader r = Returns (("SPLICE", herr), r1) ->
  io.Read (zeros 6) r = Returns ((signature, 6%nat, nil_error), r1)
  /\ io.contents r = signature ++ io.contents r1.
Proof.
  intros H.
  destruct (readHeader_returns r) as (h & err & r0 & Heq & _ & Herr & Hok).
  rewrite Heq in H. injection H as -> -> ->.
  destruct herr as [e|]; [destruct (Herr e eq_refl) as [H _]; discriminate H|].
  destruct (Hok eq_refl) as (buf & n & Hread & Hbuf).
  apply (f_equal list_byte_of_string) in Hbuf.
  rewrite list_byte_of_string_of_list_byte in Hbuf. subst buf.
  destruct (Read_returns r (zeros 6))
    as (bs & k & e & r2 & Heq2 & _ & Hk & Hc & Hsk & _).
  rewrite Hread in Heq2. injection Heq2 as <- <- <- <-.
  rewrite zeros_length in Hk.
  assert (n = 6%nat) as ->.
  { do 6 (destruct n as [|n]; [discriminate Hsk|]). lia. }
  split; [exact Hread|exact Hc].
Qed.

(** X6: [DecodeFile] returns a pattern only for a source whose bytes begin
    with SPLICE, however the source delivers them. *)
Theorem accepted_begins_with_signature
  (fs : os.FileSystem) (path : string) (file : io.Reader)
  (p : Pattern) (err : error) :
  fs path = Some file ->
  DecodeFile fs path = Returns (Some p, err) ->
  firstn 6 (io.contents file) = signature.
Proof.
  intros Hfile H. unfold DecodeFile, os.Open in H. rewrite Hfile in H.
  destruct (decode file) as [[res r']|?|] eqn:Hdec; try discriminate.
  injection H as ->. unfold decode in Hdec.
  apply decodeFuel_success in Hdec.
  destruct Hdec as (_ & herr & r1 & sz & r2 & r3 & r4 & c & Hh & _).
  apply header_is_signature in Hh. destruct Hh as [_ ->]. reflexivity.
Qed.

Lemma accepted_begins_with_signature_witness :
  single_file "fifo" kick_pipe "fifo" = Some kick_pipe
  /\ firstn 6 (io.contents kick_pipe) = signature.
Proof.
  split; [reflexivity|].
  eapply (accepted_begins_with_signature (single_file "fifo" kick_pipe) "fifo"
            kick_pipe _ nil_error).
  - reflexivity.
  - vm_compute. reflexivity.
Defined.

Section RegularRecords.

Lemma stepsLoop_regular_enough (n : nat) :
  forall i steps y steps' r',
    stepsLoop n i steps (io.regular y) = Returns ((steps', nil_error), r') ->
    (n <= List.length y)%nat.
Proof.
  induction n as [|n IH]; intros i steps y steps' r' H; [lia|].
  cbn [stepsLoop] in H. unfold io.bind in H.
  destruct (binary.Read binary.LittleEndian binary.Int8 (io.regular y))
    as [[[v [e|]] r1]|?|] eqn:E; try discriminate H.
  apply binary_Read_regular_ok in E. destruct E as (Hle & _ & ->).
  apply IH in H. rewrite length_skipn in H. cbn [binary.size] in *. lia.
Qed.

(** A record whose bytes are all there, whatever its step bytes are. *)
Lemma readTrack_record (size : Z) (idb : list byte) (nb : byte)
  (name stepBytes more : list byte) (r : io.Reader) :
  List.length idb = 4%nat ->
  0 <= binary.decode binary.LittleEndian binary.Int8 [nb] ->
  List.length name
  = Z.to_nat (binary.decode binary.LittleEndian binary.Int8 [nb]) ->
  List.length stepBytes = 16%nat ->
  readTrack size (io.Data (idb ++ nb :: name ++ stepBytes ++ more) :: r)
  = Returns ((Some (mkTrack
                      (binary.decode binary.LittleEndian binary.Int32 idb)
                      (string_of_list_byte name)
                      (map stepActive stepBytes)),
              nil_error,
              afterRecord size
                (binary.decode binary.LittleEndian binary.Int8 [nb])),
             io.Data more :: r).
Proof.
  intros Hid Hpos Hname Hsteps. unfold readTrack, io.bind.
  rewrite binary_Read_prefix by exact Hid.
  change (nb :: name ++ stepBytes ++ more)
    with ([nb] ++ name ++ stepBytes ++ more).
  rewrite binary_Read_prefix by reflexivity.
  unfold make.
  destruct (Z.ltb_spec (binary.decode binary.LittleEndian binary.Int8 [nb]) 0);
    [lia|].
  cbn [io.ret].
  rewrite Read_exact by (now rewrite zeros_length).
  rewrite stepsLoop_prefix; [|exact Hsteps|rewrite repeat_length; lia].
  cbn [firstn app]. rewrite skipn_all2 by (rewrite repeat_length; lia).
  rewrite app_nil_r. reflexivity.
Qed.

Lemma readTrack_not_nil_nil size r size' r' :
  readTrack size r <> Returns ((None, nil_error, size'), r').
Proof.
  intros H.
  destruct (readTrack_spec size r)
    as [(? & ? & ? & Heq & _)
       |[(? & ? & ? & Heq & _)|(? & ? & ? & ? & ? & Heq & _)]];
    rewrite Heq in H; discriminate H.
Qed.

(** On a regular file a track is returned only when all the bytes of its
    record are there. *)
Lemma readTrack_regular_ok size y t err size' r' :
  readTrack size (io.regular y) = Returns ((Some t, err, size'), r') ->
  exists idb nb name stepBytes more,
    y = idb ++ nb :: name ++ stepBytes ++ more
    /\ List.length idb = 4%nat
    /\ 0 <= binary.decode binary.LittleEndian binary.Int8 [nb]
    /\ List.length name
       = Z.to_nat (binary.decode binary.LittleEndian binary.Int8 [nb])
    /\ List.length stepBytes = 16%nat.
Proof.
  intros H. unfold readTrack, io.bind in H.
  destruct (binary.Read binary.LittleEndian binary.Int32 (io.regular y))
    as [[[id [e|]] r1]|?|] eqn:E1; try discriminate H.
  apply binary_Read_regular_ok in E1. destruct E1 as (H4 & _ & ->).
  cbn [binary.size] in *.
  destruct (binary.Read binary.LittleEndian binary.Int8
              (io.regular (skipn 4 y)))
    as [[[nl [e|]] r2]|?|] eqn:E2; try discriminate H.
  apply binary_Read_regular_ok in E2. destruct E2 as (H1 & -> & ->).
  cbn [binary.size] in *.
  destruct (skipn 4 y) as [|nb y2] eqn:Hy; [cbn in H1; lia|].
  cbn [firstn skipn] in H.
  unfold make in H.
  destruct (Z.ltb_spec (binary.decode binary.LittleEndian binary.Int8 [nb]) 0)
    as [|Hpos]; [discriminate H|].
  cbn [io.ret] in H.
  set (n := Z.to_nat (binary.decode binary.LittleEndian binary.Int8 [nb])) in *.
  assert (Hy2 : (n + 16 <= List.length y2)%nat).
  { rewrite Read_regular in H.
    destruct (zeros n) as [|z zs] eqn:Hz.
    - apply (f_equal (@List.length byte)) in Hz.
      rewrite zeros_length in Hz. cbn in Hz.
      destruct (stepsLoop 16 0 (repeat false 16) (io.regular y2))
        as [[[steps [e|]] r4]|?|] eqn:E4; try discriminate H.
      apply stepsLoop_regular_enough in E4. lia.
    - destruct y2 as [|c0 c].
      + rewrite stepsLoop_at_eof in H by auto. discriminate H.
      + destruct (stepsLoop 16 0 (repeat false 16)
                    (io.regular (skipn (List.length (z :: zs)) (c0 :: c))))
          as [[[steps [e|]] r4]|?|] eqn:E4; try discriminate H.
        apply stepsLoop_regular_enough in E4.
        rewrite length_skipn, <- Hz, zeros_length in E4. lia. }
  exists (firstn 4 y), nb, (firstn n y2),
    (firstn 16 (skipn n y2)), (skipn 16 (skipn n y2)).
  splits.
  - rewrite !firstn_skipn, <- Hy. now rewrite firstn_skipn.
  - rewrite length_firstn. lia.
  - exact Hpos.
  - rewrite length_firstn. lia.
  - rewrite length_firstn, length_skipn. lia.
Qed.

(** On a regular file the loop that ends without an error has read whole
    records, exactly those the counter selects. *)
Lemma trackLoop_regular_ok (fuel : nat) :
  forall counter acc y tracks counter' r',
    counter <= max_int64 ->
    trackLoop fuel counter acc (io.regular y)
    = Returns ((tracks, nil_error, counter'), r') ->
    exists new pre more,
      tracks = acc ++ new
      /\ y = pre ++ more
      /\ Z.of_nat (List.length pre) = recordsLength new
      /\ r' = io.regular more
      /\ counterSelects counter new
      /\ counter' = counter - recordsLength new.
Proof.
  induction fuel as [|fuel IH]; intros counter acc y tracks counter' r' Hmax;
    cbn [trackLoop]; destruct (Z.ltb_spec 0 counter) as [Hpos|Hle];
    unfold io.bind, io.ret; try discriminate.
  1,3: intros H; injection H as <- <- <-;
       exists [], [], y; cbn [recordsLength counterSelects List.length app];
       rewrite app_nil_r; splits; auto; lia.
  destruct (readTrack counter (io.regular y))
    as [[[[[t|] [e|]] sz] r1]|?|] eqn:E; try discriminate.
  2:{ now apply readTrack_not_nil_nil in E. }
  destruct (readTrack_regular_ok _ _ _ _ _ _ E)
    as (idb & nb & name & stepBytes & more & -> & Hid & Hn & Hname & Hsteps).
  pose proof (readTrack_record counter idb nb name stepBytes more []
                Hid Hn Hname Hsteps) as E'.
  fold (io.regular (idb ++ nb :: name ++ stepBytes ++ more)) in E'.
  rewrite E in E'. clear E.
  pose proof (int8_of_byte_range nb) as Hr.
  remember (binary.decode binary.LittleEndian binary.Int8 [nb]) as nl eqn:Hnl.
  remember (binary.decode binary.LittleEndian binary.Int32 idb) as id eqn:Hidv.
  clear Hnl Hidv.
  injection E' as -> -> ->.
  rewrite afterRecord_no_wrap by lia.
  intros H. apply IH in H; [|lia].
  destruct H as (new & pre & more' & -> & -> & Hpre & -> & Hsel & ->).
  set (t := {| ID := id;
               Name := string_of_list_byte name;
               Steps := map stepActive stepBytes |}) in *.
  assert (Hlen : recordLength t = 4 + 1 + nl + 16).
  { unfold recordLength, t. cbn [Name].
    rewrite string_of_list_byte_length, Hname, Z2Nat.id by lia. reflexivity. }
  exists (t :: new), (idb ++ nb :: name ++ stepBytes ++ pre), more'.
  cbn [recordsLength counterSelects]. rewrite Hlen. splits.
  - now rewrite <- app_assoc.
  - rewrite <- !app_assoc. cbn [app]. now rewrite <- !app_assoc.
  - rewrite length_app. cbn [List.length]. rewrite !length_app.
    rewrite Hid, Hname, Hsteps. lia.
  - reflexivity.
  - exact Hpos.
  - exact Hsel.
  - lia.
Qed.

End RegularRecords.

Section RegularFields.

Lemma readHeader_regular_ok (y : list byte) (herr : error) (r' : io.Reader) :
  readHeader (io.regular y) = Returns (("SPLICE", herr), r') ->
  y = signature ++ skipn 6 y /\ r' = io.regular (skipn 6 y).
Proof.
  intros H. apply header_is_signature in H. destruct H as [Hread Hc].
  destruct y as [|c0 c]; [discriminate Hread|].
  rewrite Read_regular_some in Hread by discriminate.
  rewrite zeros_length in Hread.
  remember (c0 :: c) as y eqn:Hy. clear Hy.
  assert (Hn : List.length (firstn 6 y) = 6%nat) by congruence.
  assert (Hb : firstn 6 y ++ skipn (List.length (firstn 6 y)) (zeros 6)
               = signature) by congruence.
  assert (Hr : io.regular (skipn 6 y) = r') by congruence.
  split; [|now rewrite Hr].
  rewrite Hn, skipn_zeros in Hb. cbn [Nat.sub zeros repeat] in Hb.
  rewrite app_nil_r in Hb. rewrite <- Hb at 1. now rewrite firstn_skipn.
Qed.

Lemma readContentSize_regular_ok (y : list byte) (v : Z) (r' : io.Reader) :
  readContentSize (io.regular y) = Returns ((v, nil_error), r') ->
  (8 <= List.length y)%nat
  /\ v = binary.decode binary.BigEndian binary.Int64 (firstn 8 y)
  /\ r' = io.regular (skipn 8 y).
Proof.
  unfold readContentSize, io.bind, io.ret.
  destruct (binary.Read binary.BigEndian binary.Int64 (io.regular y))
    as [[[v0 [e|]] r1]|?|] eqn:E; try discriminate.
  apply binary_Read_regular_ok in E. destruct E as (Hle & -> & ->).
  intros H; injection H as <- <-. auto.
Qed.

Lemma readTempo_regular_ok (y : list byte) (t : math.float32) (r' : io.Reader) :
  readTempo (io.regular y) = Returns ((t, nil_error), r') ->
  (4 <= List.length y)%nat
  /\ t = math.Float32frombits
           (binary.decode binary.LittleEndian binary.Float32 (firstn 4 y))
  /\ r' = io.regular (skipn 4 y).
Proof.
  unfold readTempo, io.bind, io.ret.
  destruct (binary.Read binary.LittleEndian binary.Float32 (io.regular y))
    as [[[v0 [e|]] r1]|?|] eqn:E; try discriminate.
  apply binary_Read_regular_ok in E. destruct E as (Hle & -> & ->).
  intros H; injection H as <- <-. auto.
Qed.

Lemma readVersion_regular_ok (y : list byte) (v : string) (r' : io.Reader) :
  readVersion (io.regular y) = Returns ((v, nil_error), r') ->
  v = string_of_list_byte (bytes.Trim (firstn 32 y) x00)
  /\ r' = io.regular (skipn 32 y).
Proof.
  unfold readVersion, io.bind. destruct y as [|c0 c]; [discriminate|].
  rewrite Read_regular_some by discriminate.
  unfold io.ret. rewrite zeros_length.
  remember (c0 :: c) as y eqn:Hy. clear Hy. intros H.
  assert (Hv : v = string_of_list_byte
                     (bytes.Trim
                        (firstn 32 y
                         ++ skipn (List.length (firstn 32 y)) (zeros 32)) x00))
    by congruence.
  assert (Hr : r' = io.regular (skipn 32 y)) by congruence.
  split; [|exact Hr]. rewrite Hv, skipn_zeros. unfold bytes.Trim, zeros.
  now rewrite trimRightByte_padding.
Qed.

End RegularFields.

(** The parts of a regular file that decodes. *)
Lemma decode_regular_ok
  (input : list byte) (p : Pattern) (err : error) (file' : io.Reader) :
  decode (io.regular input) = Returns ((Some p, err), file') ->
  exists sizeBytes ver tempo records rest,
    input = signature ++ sizeBytes ++ ver ++ tempo ++ records ++ rest
    /\ List.length sizeBytes = 8%nat
    /\ List.length ver = 32%nat
    /\ List.length tempo = 4%nat
    /\ Z.of_nat (List.length records) = recordsLength (Tracks p)
    /\ file' = io.regular rest
    /\ Version p = string_of_list_byte (bytes.Trim ver x00)
    /\ Tempo p = math.Float32frombits
                   (binary.decode binary.LittleEndian binary.Float32 tempo)
    /\ counterSelects
         (sub64 (sub64 (binary.decode binary.BigEndian binary.Int64
                          sizeBytes) 32) 4)
         (Tracks p).
Proof.
  intros H. unfold decode in H. apply decodeFuel_success in H.
  destruct H as (_ & herr & r1 & sz & r2 & r3 & r4 & c & Hh & Hs & Hv & Ht & Hl).
  apply readHeader_regular_ok in Hh. destruct Hh as [Hin ->].
  apply readContentSize_regular_ok in Hs. destruct Hs as (H8 & -> & ->).
  apply readVersion_regular_ok in Hv. destruct Hv as (Hver & ->).
  apply readTempo_regular_ok in Ht. destruct Ht as (H4 & Htempo & ->).
  apply trackLoop_regular_ok in Hl; [|apply wrap64_range].
  destruct Hl as (new & pre & more & Hnew & Hpre & Hplen & -> & Hsel & _).
  cbn [app] in Hnew. subst new.
  set (x1 := skipn 6 input) in *. set (x2 := skipn 8 x1) in *.
  rewrite length_skipn in H4.
  exists (firstn 8 x1), (firstn 32 x2), (firstn 4 (skipn 32 x2)), pre, more.
  splits; auto.
  - rewrite <- Hpre, !firstn_skipn. exact Hin.
  - rewrite length_firstn. lia.
  - rewrite length_firstn. lia.
  - rewrite length_firstn, length_skipn. lia.
Qed.

(** X7: a regular file that decodes to a pattern is made as the doc comment
    of [DecodeFile] says.  It is the signature, eight size bytes, a full
    version block of 32 bytes whose trimmed text is the version, four tempo
    bytes, records whose total length is 4 + 1 + name length + 16 summed
    over the tracks returned, and a rest that is left unread; the counter
    seeded from the size bytes is positive before each of the records and
    zero or negative after the last.  So the decoder never reads beyond the
    end of a file it accepts. *)
Theorem regular_file_that_decodes
  (input : list byte) (p : Pattern) (err : error) (file' : io.Reader) :
  decode (io.regular input) = Returns ((Some p, err), file') ->
  exists sizeBytes ver tempo records rest,
    input = signature ++ sizeBytes ++ ver ++ tempo ++ records ++ rest
    /\ List.length sizeBytes = 8%nat
    /\ List.length ver = 32%nat
    /\ List.length tempo = 4%nat
    /\ Z.of_nat (List.length records) = recordsLength (Tracks p)
    /\ file' = io.regular rest
    /\ Version p = string_of_list_byte (bytes.Trim ver x00)
    /\ Tempo p = math.Float32frombits
                   (binary.decode binary.LittleEndian binary.Float32 tempo)
    /\ counterSelects
         (sub64 (sub64 (binary.decode binary.BigEndian binary.Int64
                          sizeBytes) 32) 4)
         (Tracks p).
Proof.
  intros H.
  destruct (decode_regular_ok input p err file' H)
    as (sizeBytes & ver & tempo & records & rest & Hparts).
  exists sizeBytes, ver, tempo, records, rest. exact Hparts.
Qed.

Lemma regular_file_that_decodes_witness :
  decode (io.regular (kick_file ++ [x2a]))
  = Returns ((Some {| Version := "0.808-alpha";
                      Tempo := S754_finite false 15728640 (-17);
                      Tracks := [ {| ID := 0; Name := "kick";
                                     Steps := kick_steps |} ] |},
              nil_error), io.regular [x2a])
  /\ exists sizeBytes ver tempo records rest,
       kick_file ++ [x2a]
       = signature ++ sizeBytes ++ ver ++ tempo ++ records ++ rest
       /\ Z.of_nat (List.length records) = 25
       /\ io.regular [x2a] = io.regular rest.
Proof.
  split; [reflexivity|].
  destruct (regular_file_that_decodes (kick_file ++ [x2a])
              {| Version := "0.808-alpha";
                 Tempo := S754_finite false 15728640 (-17);
                 Tracks := [ {| ID := 0; Name := "kick";
                                Steps := kick_steps |} ] |}
              nil_error (io.regular [x2a]) eq_refl)
    as (sizeBytes & ver & tempo & records & rest & H1 & _ & _ & _ & H2 & H3 & _).
  exists sizeBytes, ver, tempo, records, rest. auto.
Defined.

(** X8: the tracks that come out of a regular file cover the declared
    size and no more than needed: with a declared size that does not wrap
    around, the records of all tracks amount to at least the declared size
    less 36, and the records before the last one to less than that.  The
    declared size is not compared with anything else. *)
Theorem records_cover_declared_size
  (fs : os.FileSystem) (path : string) (input : list byte)
  (p : Pattern) (err : error) :
  fs path = Some (io.regular input) ->
  DecodeFile fs path = Returns (Some p, err) ->
  let declared :=
    binary.decode binary.BigEndian binary.Int64 (firstn 8 (skipn 6 input)) in
  min_int64 + 36 <= declared ->
  declared - 36 <= recordsLength (Tracks p)
  /\ (Tracks p <> [] ->
      recordsLength (removelast (Tracks p)) < declared - 36)
  /\ 50 + recordsLength (Tracks p) <= Z.of_nat (List.length input).
Proof.
  intros Hfile H declared Hmin. unfold DecodeFile, os.Open in H.
  rewrite Hfile in H.
  destruct (decode (io.regular input)) as [[res r']|?|] eqn:Hdec;
    try discriminate.
  injection H as ->.
  apply decode_regular_ok in Hdec.
  destruct Hdec as (sizeBytes & ver & tempo & records & rest
                    & Hin & H8 & H32 & H4 & Hrec & _ & _ & _ & Hsel).
  assert (Hd : declared
               = binary.decode binary.BigEndian binary.Int64 sizeBytes).
  { subst declared. rewrite Hin.
    rewrite skipn_app, (skipn_all2 signature) by (cbn; lia).
    cbn [app List.length signature list_byte_of_string].
    change (6 - _)%nat with O. cbn [skipn].
    now rewrite <- H8, firstn_app, firstn_all, Nat.sub_diag, firstn_O, app_nil_r. }
  rewrite <- Hd in Hsel.
  rewrite seed_no_wrap in Hsel.
  2:{ split; [exact Hmin|]. subst declared.
      cbn [binary.decode]. unfold signed, max_int64.
      pose proof (littleEndian_range
                    (rev (firstn 8 (skipn 6 input)))) as Hr.
      assert (Hl : (List.length (rev (firstn 8 (skipn 6 input))) <= 8)%nat)
        by (rewrite length_rev, length_firstn; lia).
      assert (Hp : 256 ^ Z.of_nat (List.length (rev (firstn 8 (skipn 6 input))))
                   <= 256 ^ 8) by (apply Z.pow_le_mono_r; lia).
      cbn [binary.Uint].
      change (2 ^ (64 - 1)) with 9223372036854775808.
      change (2 ^ 64) with 18446744073709551616.
      change (2 ^ 63) with 9223372036854775808.
      change (256 ^ 8) with 18446744073709551616 in Hp.
      destruct (Z.ltb_spec (binary.littleEndian
                              (rev (firstn 8 (skipn 6 input))))
                  9223372036854775808); lia. }
  apply counterSelects_sums in Hsel. destruct Hsel as [Hle Hgt].
  splits; auto.
  rewrite Hin, !length_app, H8, H32, H4.
  change (List.length signature) with 6%nat. lia.
Qed.

Lemma records_cover_declared_size_witness :
  single_file "o.splice" (io.regular overrun_file) "o.splice"
  = Some (io.regular overrun_file)
  /\ 37 - 36 <= recordsLength
                  [ {| ID := 0; Name := "kick"; Steps := kick_steps |} ].
Proof.
  split; [reflexivity|].
  destruct (records_cover_declared_size
              (single_file "o.splice" (io.regular overrun_file)) "o.splice"
              overrun_file
              {| Version := "0.808-alpha";
                 Tempo := S754_finite false 15728640 (-17);
                 Tracks := [ {| ID := 0; Name := "kick";
                                Steps := kick_steps |} ] |}
              nil_error eq_refl eq_refl) as (H & _).
  - vm_compute. discriminate.
  - exact H.
Defined.

(** * Sources that deliver their bytes in pieces *)

(** A piece shorter than the buffer: the one [Read] takes the piece and
    leaves the rest of the buffer as it was. *)
Lemma Read_short_piece (buf c : list byte) (r : io.Reader) :
  c <> [] -> (List.length c < List.length buf)%nat ->
  io.Read buf (io.Data c :: r)
  = Returns ((c ++ skipn (List.length c) buf, List.length c, nil_error),
             io.Data [] :: r).
Proof.
  intros Hc Hlt. destruct buf as [|b buf]; [cbn in Hlt; lia|].
  destruct c as [|c0 c]; [now elim Hc|].
  cbn [io.Read].
  rewrite (firstn_all2 (n := List.length (b :: buf)) (c0 :: c)) by lia.
  rewrite (skipn_all2 (n := List.length (b :: buf)) (c0 :: c)) by lia.
  reflexivity.
Qed.

(** C10: the result is not a function of the bytes alone.  Where the code
    calls [Read] once and does not look at the count (the header, the
    version, the name), the result also depends on how the source cuts its
    deliveries.  For every regular file that decodes to a pattern, the same
    bytes delivered in two pieces, the first one shorter than the
    signature, give no pattern but the wrong-signature error; and the
    bytes of [kick_file] decode to two different patterns, from a regular
    file and from a source that cuts them inside the name. *)
Theorem same_bytes_different_results
  (fs1 fs2 : os.FileSystem) (path1 path2 : string)
  (input : list byte) (k : nat) (p : Pattern) :
  (0 < k < 6)%nat ->
  fs1 path1 = Some (io.regular input) ->
  fs2 path2 = Some (inTwoPieces k input) ->
  DecodeFile fs1 path1 = Returns (Some p, nil_error) ->
  (io.contents (inTwoPieces k input) = io.contents (io.regular input)
   /\ faultFree (inTwoPieces k input) = true
   /\ DecodeFile fs2 path2
      = Returns (None,
                 Some (invalid_header
                         (string_of_list_byte (firstn k input ++ zeros (6 - k)))))
   /\ DecodeFile fs1 path1 <> DecodeFile fs2 path2)
  /\ (io.contents kick_pipe = io.contents (io.regular kick_file)
      /\ faultFree kick_pipe = true
      /\ decode (io.regular kick_file)
         = Returns ((Some {| Version := "0.808-alpha";
                             Tempo := S754_finite false 15728640 (-17);
                             Tracks := [ {| ID := 0; Name := "kick";
                                            Steps := kick_steps |} ] |},
                     nil_error), io.regular [])
      /\ decode kick_pipe
         = Returns ((Some {| Version := "0.808-alpha";
                             Tempo := S754_finite false 15728640 (-17);
                             Tracks :=
                               [ {| ID := 0;
                                    Name := string_of_list_byte
                                              [x6b; x69; x00; x00];
                                    Steps := [true; true; true; false;
                                              false; false; true; false;
                                              false; false; true; false;
                                              false; false; true; false] |} ] |},
                     nil_error), [io.Data [x00; x00]])).
Proof.
  intros Hk H1 H2 Hok. split; [|splits; reflexivity].
  assert (Hdec : exists r', decode (io.regular input)
                            = Returns ((Some p, nil_error), r')).
  { unfold DecodeFile, os.Open in Hok. rewrite H1 in Hok.
    destruct (decode (io.regular input)) as [[res r']|?|]; try discriminate Hok.
    cbv beta iota in Hok. injection Hok as ->. now exists r'. }
  destruct Hdec as (r' & Hdec).
  destruct (decode_regular_ok input p nil_error r' Hdec)
    as (sizeBytes & ver & tempo & records & rest & Hin & H8 & _).
  assert (Hlen : (6 <= List.length input)%nat).
  { rewrite Hin, length_app. cbn. lia. }
  assert (Hpiece : List.length (firstn k input) = k).
  { rewrite length_firstn. lia. }
  assert (Hbad : DecodeFile fs2 path2
                 = Returns (None,
                     Some (invalid_header
                             (string_of_list_byte
                                (firstn k input ++ zeros (6 - k)))))).
  { unfold DecodeFile, os.Open. rewrite H2.
    rewrite (short_header_reported_as_format (inTwoPieces k input)
               (io.Data [] :: [io.Data (skipn k input)])
               (firstn k input ++ zeros (6 - k)) k);
      [reflexivity| |lia].
    unfold inTwoPieces. rewrite Read_short_piece.
    - now rewrite Hpiece, skipn_zeros.
    - intros Hnil. rewrite Hnil in Hpiece. cbn in Hpiece. lia.
    - rewrite zeros_length. lia. }
  splits.
  - unfold inTwoPieces, io.regular. cbn [io.contents].
    now rewrite !app_nil_r, firstn_skipn.
  - reflexivity.
  - exact Hbad.
  - rewrite Hok, Hbad. discriminate.
Qed.

Lemma same_bytes_different_results_witness :
  io.contents (inTwoPieces 3 kick_file) = kick_file
  /\ DecodeFile (single_file "kick.splice" (io.regular kick_file)) "kick.splice"
     = Returns (Some {| Version := "0.808-alpha";
                        Tempo := S754_finite false 15728640 (-17);
                        Tracks := [ {| ID := 0; Name := "kick";
                                       Steps := kick_steps |} ] |},
                nil_error)
  /\ DecodeFile (single_file "fifo" (inTwoPieces 3 kick_file)) "fifo"
     = Returns (None,
                Some (invalid_header
                        (string_of_list_byte [x53; x50; x4c; x00; x00; x00]))).
Proof.
  split; [reflexivity|]. split; [reflexivity|].
  apply (same_bytes_different_results
           (single_file "kick.splice" (io.regular kick_file))
           (single_file "fifo" (inTwoPieces 3 kick_file))
           "kick.splice" "fifo" kick_file 3
           {| Version := "0.808-alpha";
              Tempo := S754_finite false 15728640 (-17);
              Tracks := [ {| ID := 0; Name := "kick";
                             Steps := kick_steps |} ] |}).
  - lia.
  - reflexivity.
  - reflexivity.
  - reflexivity.
Defined.


(** [io.ReadFull] puts the pieces together: without a fault of the device
    it returns the next bytes of the source however they are cut. *)
Lemma ReadFull_contents (r : io.Reader) :
  forall buf pre rest,
    faultFree r = true ->
    io.contents r = pre ++ rest ->
    List.length pre = List.length buf ->
    exists r',
      io.ReadFull buf r = Returns ((pre, List.length buf, nil_error), r')
      /\ io.contents r' = rest
      /\ faultFree r' = true.
Proof.
  induction r as [|[c|] r IH]; intros buf pre rest Hff Hc Hlen;
    [|cbn [faultFree] in Hff|discriminate Hff].
  - cbn in Hc. destruct pre; [|discriminate Hc].
    destruct buf; [|discriminate Hlen]. destruct rest; [|discriminate Hc].
    exists []. auto.
  - destruct buf as [|b buf].
    + destruct pre; [|discriminate Hlen].
      exists (io.Data c :: r). cbn [app] in Hc. splits; auto.
    + cbn [io.ReadFull io.contents] in *.
      destruct (Nat.ltb_spec (List.length c) (List.length (b :: buf)))
        as [Hlt|Hge].
      * assert (Hpre : pre = c ++ skipn (List.length c) pre).
        { rewrite <- (firstn_skipn (List.length c) pre) at 1. f_equal.
          apply (f_equal (firstn (List.length c))) in Hc.
          rewrite firstn_app, firstn_all, Nat.sub_diag, firstn_O, app_nil_r in Hc.
          rewrite firstn_app in Hc.
          replace (List.length c - List.length pre)%nat with O in Hc by lia.
          now rewrite firstn_O, app_nil_r in Hc. }
        assert (Hrest : io.contents r = skipn (List.length c) pre ++ rest).
        { rewrite Hpre, <- app_assoc in Hc. now apply app_inv_head in Hc. }
        destruct (IH (skipn (List.length c) (b :: buf))
                    (skipn (List.length c) pre) rest Hff Hrest)
          as (r' & Heq & Hc' & Hff').
        { rewrite !length_skipn. lia. }
        rewrite Heq. exists r'. splits; auto.
        rewrite <- Hpre, length_skipn.
        now replace (List.length c + (List.length (b :: buf) - List.length c))%nat
          with (List.length (b :: buf)) by lia.
      * exists (io.Data (skipn (List.length (b :: buf)) c) :: r).
        assert (Hpre : pre = firstn (List.length (b :: buf)) c).
        { apply (f_equal (firstn (List.length pre))) in Hc.
          rewrite !firstn_app, firstn_all, Nat.sub_diag, firstn_O, app_nil_r in Hc.
          replace (List.length pre - List.length c)%nat with O in Hc by lia.
          rewrite firstn_O, app_nil_r in Hc. now rewrite <- Hlen. }
        splits; auto.
        -- now rewrite <- Hpre.
        -- cbn [io.contents].
           rewrite <- (firstn_skipn (List.length (b :: buf)) c), <- Hpre,
             <- app_assoc in Hc.
           now apply app_inv_head in Hc.
Qed.

(** X9: the declared size and the tempo do not depend on how the source
    cuts its reads: from a source without a fault whose next bytes are the
    eight size bytes, [readContentSize] returns their big-endian value and
    leaves the source at the byte after them; likewise [readTempo] with
    its four bytes. *)
Theorem checked_reads_ignore_delivery
  (r : io.Reader) (field rest : list byte) :
  faultFree r = true ->
  io.contents r = field ++ rest ->
  (List.length field = 8%nat ->
   exists r',
     readContentSize r
     = Returns ((binary.decode binary.BigEndian binary.Int64 field,
                 nil_error), r')
     /\ io.contents r' = rest)
  /\ (List.length field = 4%nat ->
      exists r',
        readTempo r
        = Returns ((math.Float32frombits
                      (binary.decode binary.LittleEndian binary.Float32 field),
                    nil_error), r')
        /\ io.contents r' = rest).
Proof.
  intros Hff Hc. split; intros Hlen.
  - destruct (ReadFull_contents r (zeros 8) field rest Hff Hc)
      as (r' & Heq & Hc' & _); [now rewrite zeros_length|].
    exists r'. split; [|exact Hc'].
    unfold readContentSize, binary.Read, io.bind.
    cbn [binary.size]. rewrite Heq. reflexivity.
  - destruct (ReadFull_contents r (zeros 4) field rest Hff Hc)
      as (r' & Heq & Hc' & _); [now rewrite zeros_length|].
    exists r'. split; [|exact Hc'].
    unfold readTempo, binary.Read, io.bind.
    cbn [binary.size]. rewrite Heq. reflexivity.
Qed.

Lemma checked_reads_ignore_delivery_witness :
  faultFree [io.Data [x00; x00; x00]; io.Data [];
             io.Data [x00; x00; x00; x00]; io.Data [x3d; x2a]] = true
  /\ exists r',
       readContentSize [io.Data [x00; x00; x00]; io.Data [];
                        io.Data [x00; x00; x00; x00]; io.Data [x3d; x2a]]
       = Returns ((61, nil_error), r')
       /\ io.contents r' = [x2a].
Proof.
  split; [reflexivity|].
  apply (proj1 (checked_reads_ignore_delivery
                  [io.Data [x00; x00; x00]; io.Data [];
                   io.Data [x00; x00; x00; x00]; io.Data [x3d; x2a]]
                  [x00; x00; x00; x00; x00; x00; x00; x3d] [x2a]
                  eq_refl eq_refl)).
  reflexivity.
Defined.

Lemma trackLoop_consumes (fuel : nat) :
  forall counter acc r tracks err counter' r',
    trackLoop fuel counter acc r = Returns ((tracks, err, counter'), r') ->
    exists new,
      tracks = acc ++ new
      /\ (21 * List.length new + io.available r' <= io.available r)%nat.
Proof.
  induction fuel as [|fuel IH]; intros counter acc r tracks err counter' r';
    cbn [trackLoop]; destruct (0 <? counter); unfold io.bind, io.ret;
    try discriminate.
  1,3: intros H; injection H as <- _ _ <-; exists [];
       rewrite app_nil_r; cbn [List.length]; split; [reflexivity|lia].
  destruct (readTrack counter r) as [[[[[t|] [e|]] sz] r1]|?|] eqn:E;
    try discriminate.
  - intros H; injection H as <- _ _ <-. exists [].
    rewrite app_nil_r; cbn [List.length]; split; [reflexivity|].
    apply readTrack_progress in E. lia.
  - intros H. apply IH in H. destruct H as (new & -> & Hav).
    apply readTrack_progress in E.
    exists (t :: new). rewrite <- app_assoc. split; [reflexivity|].
    cbn [List.length]. lia.
  - intros H; injection H as <- _ _ <-. exists [].
    rewrite app_nil_r; cbn [List.length]; split; [reflexivity|].
    destruct (readTrack_spec counter r)
      as [(? & ? & ? & Heq & _)
         |[(? & ? & ? & Heq & _ & Hav)|(? & ? & ? & ? & ? & Heq & _)]];
      rewrite Heq in E; try discriminate E.
    injection E as _ _ <-. lia.
  - now apply readTrack_not_nil_nil in E.
Qed.

(** X10: the number of tracks is bounded by what the source holds, however
    it delivers its bytes: a pattern of k tracks was read from at least
    19 + 21 k bytes (six of the signature, eight of the size, at least one
    of the version, four of the tempo, and at least 21 for each track). *)
Theorem tracks_bounded_by_source
  (fs : os.FileSystem) (path : string) (file : io.Reader)
  (p : Pattern) (err : error) :
  fs path = Some file ->
  DecodeFile fs path = Returns (Some p, err) ->
  (19 + 21 * List.length (Tracks p) <= io.available file)%nat.
Proof.
  intros Hfile H. unfold DecodeFile, os.Open in H. rewrite Hfile in H.
  destruct (decode file) as [[res r']|?|] eqn:Hdec; try discriminate.
  injection H as ->. unfold decode in Hdec.
  apply decodeFuel_success in Hdec.
  destruct Hdec as (_ & herr & r1 & sz & r2 & r3 & r4 & c & Hh & Hs & Hv & Ht & Hl).
  apply header_is_signature in Hh. destruct Hh as [_ Hc1].
  destruct (readContentSize_returns r1) as (? & ? & ? & Heq & _ & _ & Hok2).
  rewrite Hs in Heq. injection Heq as <- <- <-.
  destruct (Hok2 eq_refl) as (bs2 & Hl2 & Hc2 & _).
  destruct (readVersion_returns r2) as (? & ? & ? & Heq & _ & _ & Hok3).
  rewrite Hv in Heq. injection Heq as _ <- <-.
  destruct (Hok3 eq_refl) as (buf & n & Hread & _).
  destruct (Read_returns r2 (zeros 32))
    as (bs & k & e & r0 & Heq & Hlen3 & Hk & Hc3 & _ & Hpos3 & _).
  rewrite Hread in Heq. injection Heq as <- <- <- <-.
  specialize (Hpos3 eq_refl ltac:(discriminate)).
  rewrite zeros_length in *.
  destruct (readTempo_returns r3) as (? & ? & ? & Heq & _ & _ & Hok4).
  rewrite Ht in Heq. injection Heq as _ <- <-.
  destruct (Hok4 eq_refl) as (bs4 & Hl4 & Hc4 & _).
  apply trackLoop_consumes in Hl. destruct Hl as (new & Hnew & Hav).
  cbn [app] in Hnew. subst new.
  rewrite (available_app_le _ _ _ Hc1), (available_app_le _ _ _ Hc2),
    (available_app_le _ _ _ Hc3), (available_app_le _ _ _ Hc4).
  rewrite length_firstn, Hl2, Hl4.
  change (List.length signature) with 6%nat. lia.
Qed.

Lemma tracks_bounded_by_source_witness :
  single_file "fifo" kick_pipe "fifo" = Some kick_pipe
  /\ (19 + 21 * 1 <= io.available kick_pipe)%nat.
Proof.
  split; [reflexivity|].
  apply (tracks_bounded_by_source (single_file "fifo" kick_pipe) "fifo"
           kick_pipe
           {| Version := "0.808-alpha";
              Tempo := S754_finite false 15728640 (-17);
              Tracks :=
                [ {| ID := 0;
                     Name := string_of_list_byte [x6b; x69; x00; x00];
                     Steps := [true; true; true; false;
                               false; false; true; false;
                               false; false; true; false;
                               false; false; true; false] |} ] |}
           nil_error).
  - reflexivity.
  - vm_compute. reflexivity.
Defined.

(** * Bytes after the records *)

Lemma trackLoop_extend (fuel : nat) :
  forall counter acc y tracks counter' more extra,
    trackLoop fuel counter acc (io.regular y)
    = Returns ((tracks, nil_error, counter'), io.regular more) ->
    trackLoop fuel counter acc (io.regular (y ++ extra))
    = Returns ((tracks, nil_error, counter'), io.regular (more ++ extra)).
Proof.
  induction fuel as [|fuel IH]; intros counter acc y tracks counter' more extra;
    cbn [trackLoop]; destruct (0 <? counter); unfold io.bind, io.ret;
    try discriminate.
  1,3: intros H; injection H as <- <- <-; reflexivity.
  destruct (readTrack counter (io.regular y))
    as [[[[[t|] [e|]] sz] r1]|?|] eqn:E; try discriminate.
  2:{ now apply readTrack_not_nil_nil in E. }
  destruct (readTrack_regular_ok _ _ _ _ _ _ E)
    as (idb & nb & name & stepBytes & more1 & -> & Hid & Hn & Hname & Hsteps).
  pose proof (readTrack_record counter idb nb name stepBytes more1 []
                Hid Hn Hname Hsteps) as E1.
  fold (io.regular (idb ++ nb :: name ++ stepBytes ++ more1)) in E1.
  rewrite E in E1. clear E.
  pose proof (readTrack_record counter idb nb name stepBytes (more1 ++ extra) []
                Hid Hn Hname Hsteps) as E2.
  replace (idb ++ nb :: name ++ stepBytes ++ more1 ++ extra)
    with ((idb ++ nb :: name ++ stepBytes ++ more1) ++ extra) in E2
    by (rewrite <- !app_assoc; cbn [app]; now rewrite <- !app_assoc).
  fold (io.regular ((idb ++ nb :: name ++ stepBytes ++ more1) ++ extra)) in E2.
  fold (io.regular (more1 ++ extra)) in E2.
  rewrite E2.
  assert (Ht : t = {| ID := binary.decode binary.LittleEndian
                                binary.Int32 idb;
                       Name := string_of_list_byte name;
                       Steps := map stepActive stepBytes |})
    by congruence.
  assert (Hsz : sz = afterRecord counter
                       (binary.decode binary.LittleEndian binary.Int8 [nb]))
    by congruence.
  assert (Hr1 : r1 = io.regular more1) by (unfold io.regular; congruence).
  rewrite <- Ht, <- Hsz. subst r1.
  apply IH.
Qed.

Lemma trackLoop_more_fuel (n : nat) :
  forall m counter acc r,
    (n <= m)%nat ->
    trackLoop n counter acc r <> OutOfFuel ->
    trackLoop m counter acc r = trackLoop n counter acc r.
Proof.
  induction n as [|n IH]; intros m counter acc r Hle Hne.
  - destruct m as [|m]; [reflexivity|].
    cbn [trackLoop] in *. destruct (0 <? counter); [now elim Hne|reflexivity].
  - destruct m as [|m]; [lia|].
    cbn [trackLoop] in *. destruct (0 <? counter); [|reflexivity].
    unfold io.bind in *.
    destruct (readTrack counter r) as [[[[[t|] [e|]] sz] r1]|?|];
      try reflexivity.
    apply IH; [lia|exact Hne].
Qed.

(** X11: what follows the records that were read plays no part: a regular
    file that decodes to a pattern decodes to the same pattern with any
    bytes appended, and those bytes are left unread as well. *)
Theorem appended_bytes_ignored
  (input extra : list byte) (p : Pattern) (err : error) (file' : io.Reader) :
  decode (io.regular input) = Returns ((Some p, err), file') ->
  exists rest,
    file' = io.regular rest
    /\ decode (io.regular (input ++ extra))
       = Returns ((Some p, nil_error), io.regular (rest ++ extra)).
Proof.
  intros H.
  destruct (decode_regular_ok _ _ _ _ H)
    as (sizeBytes & ver & tempo & records & rest
        & Hin & H8 & H32 & H4 & _ & -> & _).
  exists rest. split; [reflexivity|].
  unfold decode in *. subst input.
  rewrite decodeFuel_regular in H by assumption.
  replace ((signature ++ sizeBytes ++ ver ++ tempo ++ records ++ rest) ++ extra)
    with (signature ++ sizeBytes ++ ver ++ tempo ++ (records ++ rest) ++ extra)
    by (now rewrite <- !app_assoc).
  rewrite decodeFuel_regular by assumption.
  set (F1 := S (io.available
                  (io.regular (signature ++ sizeBytes ++ ver ++ tempo
                               ++ records ++ rest)))) in *.
  set (F2 := S (io.available
                  (io.regular (signature ++ sizeBytes ++ ver ++ tempo
                               ++ (records ++ rest) ++ extra)))).
  set (seed := sub64 (sub64 (binary.decode binary.BigEndian binary.Int64
                               sizeBytes) 32) 4) in *.
  destruct (trackLoop F1 seed [] (io.regular (records ++ rest)))
    as [[[[tracks [e|]] sz'] r5]|?|] eqn:Hloop; try discriminate H.
  assert (Hr5 : r5 = io.regular rest) by congruence. subst r5.
  apply (trackLoop_extend _ _ _ _ _ _ _ extra) in Hloop.
  rewrite (trackLoop_more_fuel F1 F2).
  - rewrite Hloop.
    assert (Hp : p = mkPattern
             (string_of_list_byte (bytes.Trim ver x00))
             (math.Float32frombits
                (binary.decode binary.LittleEndian binary.Float32 tempo))
             tracks) by congruence.
    now rewrite <- Hp.
  - subst F1 F2. unfold io.available, io.regular. cbn [io.contents].
    rewrite !length_app. lia.
  - rewrite Hloop. discriminate.
Qed.

Lemma appended_bytes_ignored_witness :
  decode (io.regular kick_file)
  = Returns ((Some {| Version := "0.808-alpha";
                      Tempo := S754_finite false 15728640 (-17);
                      Tracks := [ {| ID := 0; Name := "kick";
                                     Steps := kick_steps |} ] |},
              nil_error), io.regular [])
  /\ exists rest,
       io.regular [] = io.regular rest
       /\ decode (io.regular (kick_file ++ kick_file))
          = Returns ((Some {| Version := "0.808-alpha";
                              Tempo := S754_finite false 15728640 (-17);
                              Tracks := [ {| ID := 0; Name := "kick";
                                             Steps := kick_steps |} ] |},
                      nil_error), io.regular (rest ++ kick_file)).
Proof.
  split; [reflexivity|].
  apply (appended_bytes_ignored kick_file kick_file
           {| Version := "0.808-alpha";
              Tempo := S754_finite false 15728640 (-17);
              Tracks := [ {| ID := 0; Name := "kick";
                             Steps := kick_steps |} ] |}
           nil_error (io.regular [])).
  reflexivity.
Defined.

(** * After the records: a record the counter still asks for *)

(** Records that leave the counter positive are read one after the other;
    the loop goes on behind them with the counter less their lengths. *)
Lemma trackLoop_layout_then (tracks : list Track) :
  forall fuel counter acc more,
    Forall wellFormedTrack tracks ->
    recordsLength tracks < counter <= max_int64 ->
    trackLoop (List.length tracks + fuel) counter acc
      (io.regular (List.concat (map layoutTrack tracks) ++ more))
    = trackLoop fuel (counter - recordsLength tracks) (acc ++ tracks)
        (io.regular more).
Proof.
  assert (Hnn : forall ts, 0 <= recordsLength ts).
  { induction ts as [|t ts IH]; cbn [recordsLength]; unfold recordLength; lia. }
  induction tracks as [|t tracks IH]; intros fuel counter acc more Hwf Hc.
  - cbn [List.length map List.concat app recordsLength Nat.add].
    now rewrite app_nil_r, Z.sub_0_r.
  - inversion Hwf as [|? ? Ht Hts]; subst.
    cbn [recordsLength] in Hc. pose proof (Hnn tracks) as Hn.
    assert (Hl : 0 < recordLength t) by (unfold recordLength; lia).
    cbn [List.length Nat.add trackLoop].
    destruct (Z.ltb_spec 0 counter); [|lia].
    unfold io.bind, io.regular. cbn [map List.concat]. rewrite <- app_assoc.
    rewrite readTrack_layout by exact Ht.
    destruct Ht as (_ & Hname & _).
    rewrite afterRecord_no_wrap by lia. fold (recordLength t).
    fold (io.regular (List.concat (map layoutTrack tracks) ++ more)).
    fold (io.regular more).
    rewrite IH by (auto; lia).
    rewrite <- app_assoc. cbn [app recordsLength].
    now replace (counter - recordLength t - recordsLength tracks)
      with (counter - (recordLength t + recordsLength tracks)) by lia.
Qed.

Section Asked.

Variables (declared : Z) (version : string) (tempo : Z) (tracks : list Track).
Hypothesis Hversion : wellFormedVersion version.
Hypothesis Htempo : 0 <= tempo < 2 ^ 32.
Hypothesis Htracks : Forall wellFormedTrack tracks.
Hypothesis Hdeclared : recordsLength tracks < declared - 36.
Hypothesis Hmax : declared <= max_int64.

(** A file whose declared size asks for more than its well-formed records:
    [DecodeFile] is what the loop makes of the bytes behind them. *)
Lemma decodeFuel_asks_for_more (fuel : nat) (more : list byte) :
  decodeFuel (List.length tracks + fuel)
    (io.regular (layoutFile declared version tempo tracks ++ more))
  = match trackLoop fuel (declared - 36 - recordsLength tracks) tracks
            (io.regular more) with
    | Returns ((all, None, _), r5) =>
        Returns ((Some (mkPattern version (math.Float32frombits tempo) all),
                  nil_error), r5)
    | Returns ((_, Some e, _), r5) => Returns ((None, Some e), r5)
    | Panics msg => Panics msg
    | OutOfFuel => OutOfFuel
    end.
Proof.
  assert (Hnn : forall ts, 0 <= recordsLength ts).
  { induction ts as [|t ts IH]; cbn [recordsLength]; unfold recordLength; lia. }
  pose proof (Hnn tracks) as Hn.
  destruct Hversion as (Hvl & Hvh & Hvt).
  unfold layoutFile. rewrite <- !app_assoc.
  rewrite decodeFuel_regular;
    [|now rewrite putUint_length|now apply layoutVersion_length
     |now rewrite putUint_length].
  rewrite decode_put_int64 by (unfold min_int64, max_int64 in *; lia).
  rewrite seed_no_wrap by (unfold min_int64, max_int64 in *; lia).
  rewrite decode_put_float32 by exact Htempo.
  unfold layoutVersion, zeros. rewrite Trim_padding by assumption.
  rewrite string_of_list_byte_of_string.
  rewrite trackLoop_layout_then by (auto; lia).
  reflexivity.
Qed.

Lemma decode_asks_for_more (more : list byte) :
  decode (io.regular (layoutFile declared version tempo tracks ++ more))
  = decodeFuel
      (List.length tracks
       + S (io.available
              (io.regular (layoutFile declared version tempo tracks ++ more))))
      (io.regular (layoutFile declared version tempo tracks ++ more)).
Proof.
  symmetry. apply decodeFuel_fuel. lia.
Qed.

End Asked.



(** X13: a declared size that asks for more records than the file holds.
    When fewer than four bytes follow the well-formed records,
    [DecodeFile] returns no pattern but the error of the read of the next
    ID: [io.EOF] at the end of the file, [io.ErrUnexpectedEOF] after one to
    three bytes.  The tracks read so far are not returned. *)
Theorem declared_size_beyond_file
  (fs : os.FileSystem) (path : string)
  (declared : Z) (version : string) (tempo : Z) (tracks : list Track)
  (rest : list byte) :
  wellFormedVersion version ->
  0 <= tempo < 2 ^ 32 ->
  Forall wellFormedTrack tracks ->
  recordsLength tracks < declared - 36 ->
  declared <= max_int64 ->
  (List.length rest < 4)%nat ->
  fs path = Some (io.regular (layoutFile declared version tempo tracks
                              ++ rest)) ->
  DecodeFile fs path = Returns (None, Some (eofAfter (List.length rest))).
Proof.
  intros Hv Ht Hwf Hd Hmax Hrest Hfile.
  unfold DecodeFile, os.Open. rewrite Hfile.
  rewrite (decode_asks_for_more declared version tempo tracks).
  rewrite (decodeFuel_asks_for_more declared version tempo tracks)
    by assumption.
  cbn [trackLoop].
  assert (Hnn : 0 <= recordsLength tracks).
  { clear. induction tracks as [|t ts IH]; cbn [recordsLength];
      unfold recordLength; lia. }
  destruct (Z.ltb_spec 0 (declared - 36 - recordsLength tracks)); [|lia].
  unfold io.bind. unfold readTrack at 1, io.bind.
  rewrite binary_Read_short by exact Hrest. reflexivity.
Qed.

Lemma declared_size_beyond_file_witness :
  single_file "long.splice"
    (io.regular (layoutFile 62 "0.808-alpha" 1123024896
                   [ {| ID := 0; Name := "kick"; Steps := kick_steps |} ]
                 ++ [])) "long.splice"
  = Some (io.regular (layoutFile 62 "0.808-alpha" 1123024896
                        [ {| ID := 0; Name := "kick"; Steps := kick_steps |} ]
                      ++ []))
  /\ DecodeFile
       (single_file "long.splice"
          (io.regular (layoutFile 62 "0.808-alpha" 1123024896
                         [ {| ID := 0; Name := "kick"; Steps := kick_steps |} ]
                       ++ []))) "long.splice"
     = Returns (None, Some EOF).
Proof.
  split; [reflexivity|].
  apply (declared_size_beyond_file _ "long.splice"
           62 "0.808-alpha" 1123024896
           [ {| ID := 0; Name := "kick"; Steps := kick_steps |} ] []).
  - split; [cbn; lia|]. split; discriminate.
  - lia.
  - constructor; [|constructor].
    split; [cbn; lia|]. split; [cbn; lia|reflexivity].
  - cbn. lia.
  - unfold max_int64. lia.
  - cbn. lia.
  - reflexivity.
Defined.

(** * The tempo *)

Section Binary32.

Lemma digits2_pos_size (p : positive) : digits2_pos p = Pos.size p.
Proof. induction p as [p IH|p IH|]; cbn; now rewrite ?IH. Qed.

Lemma digits2_pos_upper (p : positive) (k : Z) :
  0 <= k -> Z.pos p < 2 ^ k -> Z.pos (digits2_pos p) <= k.
Proof.
  intros Hk Hp. rewrite digits2_pos_size.
  pose proof (Pos.size_le p) as Hle.
  apply Pos2Z.pos_le_pos in Hle. rewrite Pos2Z.inj_pow in Hle.
  change (Z.pos p~0) with (2 * Z.pos p) in Hle. change (Z.pos 2) with 2 in Hle.
  destruct (Z_le_gt_dec (Z.pos (Pos.size p)) k) as [|Hgt]; [assumption|].
  exfalso.
  assert (H2 : 2 ^ (k + 1) <= 2 ^ Z.pos (Pos.size p))
    by (apply Z.pow_le_mono_r; lia).
  rewrite Z.pow_add_r in H2 by lia. lia.
Qed.

Lemma digits2_pos_lower (p : positive) (k : Z) :
  0 <= k -> 2 ^ k <= Z.pos p -> k + 1 <= Z.pos (digits2_pos p).
Proof.
  intros Hk Hp. rewrite digits2_pos_size.
  pose proof (Pos.size_gt p) as Hgt.
  apply Pos2Z.pos_lt_pos in Hgt. rewrite Pos2Z.inj_pow in Hgt.
  change (Z.pos 2) with 2 in Hgt.
  destruct (Z_le_gt_dec (k + 1) (Z.pos (Pos.size p))) as [|Hlt]; [assumption|].
  exfalso.
  assert (H2 : 2 ^ Z.pos (Pos.size p) <= 2 ^ k)
    by (apply Z.pow_le_mono_r; lia).
  lia.
Qed.

(** Every bit pattern is a value of the binary32 format: a zero, an
    infinity, a NaN, or a finite number with the mantissa and the exponent
    the format allows. *)
Lemma Float32frombits_valid (u : Z) :
  valid_binary 24 128 (math.Float32frombits u) = true.
Proof.
  unfold math.Float32frombits.
  change (2 ^ 23 - 1) with (Z.ones 23). change 255 with (Z.ones 8).
  rewrite !Z.land_ones by lia.
  pose proof (Z.mod_pos_bound (Z.shiftr u 23) (2 ^ 8) eq_refl) as He.
  pose proof (Z.mod_pos_bound u (2 ^ 23) eq_refl) as Hm.
  set (e := Z.shiftr u 23 mod 2 ^ 8) in *. set (m := u mod 2 ^ 23) in *.
  change (2 ^ 8) with 256 in He. change (Z.ones 8) with 255.
  destruct (Z.eqb_spec e 0) as [He0|He0].
  - destruct (Z.eqb_spec m 0) as [Hm0|Hm0]; [reflexivity|].
    cbn [valid_binary]. unfold bounded, canonical_mantissa, fexp, emin.
    assert (Hd : Z.pos (digits2_pos (Z.to_pos m)) <= 23).
    { apply digits2_pos_upper; [lia|]. rewrite Z2Pos.id by lia. lia. }
    apply andb_true_intro. split; [apply Z.eqb_eq|apply Z.leb_le]; lia.
  - destruct (Z.eqb_spec e 255) as [He1|He1].
    + destruct (m =? 0); reflexivity.
    + cbn [valid_binary]. unfold bounded, canonical_mantissa, fexp, emin.
      assert (Hp : 0 < m + 2 ^ 23) by lia.
      assert (Hu : Z.pos (digits2_pos (Z.to_pos (m + 2 ^ 23))) <= 24).
      { apply digits2_pos_upper; [lia|]. rewrite Z2Pos.id by lia.
        change (2 ^ 24) with (2 ^ 23 + 2 ^ 23). lia. }
      assert (Hl : 23 + 1 <= Z.pos (digits2_pos (Z.to_pos (m + 2 ^ 23)))).
      { apply digits2_pos_lower; [lia|]. rewrite Z2Pos.id by lia. lia. }
      apply andb_true_intro. split; [apply Z.eqb_eq|apply Z.leb_le]; lia.
Qed.

End Binary32.

(** * The ways [DecodeFile] ends *)

(** A panic of [decodeFuel] is a panic of the loop, after the four fixed
    fields were read without an error. *)
Lemma decodeFuel_panics fuel file msg :
  decodeFuel fuel file = Panics msg ->
  exists herr r1 declared r2 v r3 t r4,
    readHeader file = Returns (("SPLICE", herr), r1)
    /\ readContentSize r1 = Returns ((declared, nil_error), r2)
    /\ readVersion r2 = Returns ((v, nil_error), r3)
    /\ readTempo r3 = Returns ((t, nil_error), r4)
    /\ trackLoop fuel (sub64 (sub64 declared 32) 4) [] r4 = Panics msg.
Proof.
  unfold decodeFuel, io.bind, io.ret.
  destruct (readHeader_returns file) as (h & e1 & r1 & H1 & _). rewrite H1.
  destruct (String.eqb_spec h "SPLICE") as [->|_]; [|discriminate].
  cbn [negb].
  destruct (readContentSize_returns r1) as (sz & e2 & r2 & H2 & _).
  rewrite H2. destruct e2; [discriminate|].
  destruct (readVersion_returns r2) as (v & e3 & r3 & H3 & _).
  rewrite H3. destruct e3; [discriminate|].
  destruct (readTempo_returns r3) as (t & e4 & r4 & H4 & _).
  rewrite H4. destruct e4; [discriminate|].
  destruct (trackLoop fuel (sub64 (sub64 sz 32) 4) [] r4)
    as [[[[tracks [e5|]] sz'] r5]|m|] eqn:Hloop; try discriminate.
  intros H. injection H as ->.
  exists e1, r1, sz, r2, v, r3, t, r4. splits; auto.
Qed.

Lemma recordsLength_nonneg (tracks : list Track) : 0 <= recordsLength tracks.
Proof.
  induction tracks as [|t ts IH]; cbn [recordsLength]; unfold recordLength; lia.
Qed.

(** On a regular file the loop panics only behind whole records that left
    the counter positive, at four ID bytes followed by a negative name
    length. *)
Lemma trackLoop_regular_panics (fuel : nat) :
  forall counter acc y msg,
    counter <= max_int64 ->
    trackLoop fuel counter acc (io.regular y) = Panics msg ->
    exists tracks records idb nb rest,
      y = records ++ idb ++ nb :: rest
      /\ holdsRecords tracks records
      /\ recordsLength tracks < counter
      /\ List.length idb = 4%nat
      /\ binary.decode binary.LittleEndian binary.Int8 [nb] < 0
      /\ msg = "runtime error: makeslice: len out of range".
Proof.
  induction fuel as [|fuel IH]; intros counter acc y msg Hmax;
    cbn [trackLoop]; destruct (Z.ltb_spec 0 counter) as [Hpos|Hle];
    unfold io.bind, io.ret; try discriminate.
  destruct (readTrack counter (io.regular y))
    as [[[[[t|] [e|]] sz] r1]|m|] eqn:E; try discriminate.
  - destruct (readTrack_regular_ok _ _ _ _ _ _ E)
      as (idb & nb & name & stepBytes & more & -> & Hid & Hn & Hname & Hsteps).
    pose proof (readTrack_record counter idb nb name stepBytes more []
                  Hid Hn Hname Hsteps) as E'.
    fold (io.regular (idb ++ nb :: name ++ stepBytes ++ more)) in E'.
    rewrite E in E'. clear E.
    pose proof (int8_of_byte_range nb) as Hr.
    remember (binary.decode binary.LittleEndian binary.Int8 [nb]) as nl eqn:Hnl.
    remember (binary.decode binary.LittleEndian binary.Int32 idb) as id eqn:Hidv.
    injection E' as -> -> ->.
    rewrite afterRecord_no_wrap by lia.
    intros H. apply IH in H; [|lia].
    destruct H as (tracks & records & idb' & nb' & rest
                   & -> & Hholds & Hlt & Hid' & Hneg & ->).
    set (t := {| ID := id;
                 Name := string_of_list_byte name;
                 Steps := map stepActive stepBytes |}) in *.
    assert (Hlen : recordLength t = 4 + 1 + nl + 16).
    { unfold recordLength, t. cbn [Name].
      rewrite string_of_list_byte_length, Hname, Z2Nat.id by lia. reflexivity. }
    exists (t :: tracks), (idb ++ nb :: name ++ stepBytes ++ records),
      idb', nb', rest.
    cbn [recordsLength holdsRecords]. rewrite Hlen. splits; auto; try lia.
    + rewrite <- !app_assoc. cbn [app]. now rewrite <- !app_assoc.
    + exists idb, nb, name, stepBytes, records. rewrite <- Hnl.
      splits; auto. lia.
  - intros H. injection H as ->.
    destruct (readTrack_spec counter (io.regular y))
      as [(idb & nb & r2 & Heq & Hid & Hc & Hneg)
         |[(e & s' & rr & Heq & _)
          |(idb & nb & got & stepBytes & rr & Heq & _)]];
      rewrite Heq in E; try discriminate E.
    injection E as <-.
    unfold io.regular in Hc. cbn [io.contents] in Hc.
    rewrite app_nil_r in Hc.
    exists [], [], idb, nb, (io.contents r2).
    cbn [recordsLength holdsRecords app]. splits; auto.
Qed.

(** Whole records that leave the counter positive are read one after the
    other; the loop goes on behind them with the counter less their
    lengths. *)
Lemma trackLoop_holds (tracks : list Track) :
  forall fuel counter acc records more,
    holdsRecords tracks records ->
    recordsLength tracks < counter <= max_int64 ->
    trackLoop (List.length tracks + fuel) counter acc
      (io.regular (records ++ more))
    = trackLoop fuel (counter - recordsLength tracks) (acc ++ tracks)
        (io.regular more).
Proof.
  induction tracks as [|t tracks IH]; intros fuel counter acc records more Hh Hc.
  - cbn [holdsRecords] in Hh. subst records.
    cbn [List.length app recordsLength Nat.add].
    now rewrite app_nil_r, Z.sub_0_r.
  - cbn [holdsRecords] in Hh.
    destruct Hh as (idb & nb & name & stepBytes & records'
                    & -> & Hid & Hnl & Hsteps & Hi & Hn & Hs & Hh).
    pose proof (int8_of_byte_range nb) as Hr.
    pose proof (recordsLength_nonneg tracks) as Hnn.
    assert (Hlen : recordLength t
                   = 4 + 1 + binary.decode binary.LittleEndian binary.Int8 [nb]
                     + 16).
    { unfold recordLength. rewrite Hn, string_of_list_byte_length, Hnl.
      reflexivity. }
    cbn [recordsLength] in Hc.
    cbn [List.length Nat.add trackLoop].
    destruct (Z.ltb_spec 0 counter); [|lia].
    unfold io.bind, io.regular.
    rewrite <- !app_assoc. cbn [app]. rewrite <- !app_assoc.
    rewrite readTrack_record; [|exact Hid|lia|rewrite Hnl; lia|exact Hsteps].
    rewrite <- Hi, <- Hn, <- Hs.
    rewrite afterRecord_no_wrap by lia. rewrite <- Hlen.
    fold (io.regular (records' ++ more)). fold (io.regular more).
    replace {| ID := ID t; Name := Name t; Steps := Steps t |} with t
      by (now destruct t).
    rewrite IH by (auto; lia).
    rewrite <- app_assoc. cbn [app recordsLength].
    now replace (counter - recordLength t - recordsLength tracks)
      with (counter - (recordLength t + recordsLength tracks)) by lia.
Qed.

(** X15: [DecodeFile] ends in one of three ways, whatever the source
    delivers: a pattern with a nil error, no pattern with an error, or the
    panic of [make] in [readTrack].  On a regular file the panic happens
    exactly when the file is the signature, eight size bytes, 32 version
    bytes and four tempo bytes, then whole records that leave the counter
    of the loop positive, then four ID bytes and a name length byte of 0x80
    or above: only at a record the counter asks for, whose ID was read and
    whose name length is negative as an int8, and always there. *)
Theorem DecodeFile_ends_three_ways (fs : os.FileSystem) (path : string) :
  ((exists p, DecodeFile fs path = Returns (Some p, nil_error))
   \/ (exists e, DecodeFile fs path = Returns (None, Some e))
   \/ DecodeFile fs path = Panics "runtime error: makeslice: len out of range")
  /\ (forall msg, DecodeFile fs path = Panics msg ->
                  msg = "runtime error: makeslice: len out of range")
  /\ (forall input,
        fs path = Some (io.regular input) ->
        DecodeFile fs path = Panics "runtime error: makeslice: len out of range"
        <-> exists sizeBytes ver tempo tracks records idb nb rest,
              input = signature ++ sizeBytes ++ ver ++ tempo
                      ++ records ++ idb ++ nb :: rest
              /\ List.length sizeBytes = 8%nat
              /\ List.length ver = 32%nat
              /\ List.length tempo = 4%nat
              /\ holdsRecords tracks records
              /\ recordsLength tracks
                 < sub64 (sub64 (binary.decode binary.BigEndian binary.Int64
                                   sizeBytes) 32) 4
              /\ List.length idb = 4%nat
              /\ 128 <= unsigned_of_byte nb).
Proof.
  assert (Hthree :
    (exists p, DecodeFile fs path = Returns (Some p, nil_error))
    \/ (exists e, DecodeFile fs path = Returns (None, Some e))
    \/ DecodeFile fs path = Panics "runtime error: makeslice: len out of range").
  { destruct (DecodeFile_outcomes fs path) as [H|[H|(H & _)]]; auto. }
  splits.
  - exact Hthree.
  - intros msg Hp.
    destruct Hthree as [(p & H)|[(e & H)|H]]; rewrite H in Hp;
      try discriminate Hp.
    now injection Hp as <-.
  - intros input Hfile. split.
    + intros Hp. unfold DecodeFile, os.Open in Hp. rewrite Hfile in Hp.
      destruct (decode (io.regular input)) as [[res r']|m|] eqn:Hdec;
        try discriminate Hp.
      injection Hp as ->. unfold decode in Hdec.
      apply decodeFuel_panics in Hdec.
      destruct Hdec as (herr & r1 & sz & r2 & v & r3 & t & r4
                        & Hh & Hs & Hv & Ht & Hl).
      apply readHeader_regular_ok in Hh. destruct Hh as [Hin ->].
      apply readContentSize_regular_ok in Hs. destruct Hs as (H8 & -> & ->).
      apply readVersion_regular_ok in Hv. destruct Hv as (Hver & ->).
      apply readTempo_regular_ok in Ht. destruct Ht as (H4 & Htempo & ->).
      apply trackLoop_regular_panics in Hl; [|apply wrap64_range].
      destruct Hl as (tracks & records & idb & nb & rest
                      & Hy & Hholds & Hlt & Hid & Hneg & _).
      set (x1 := skipn 6 input) in *. set (x2 := skipn 8 x1) in *.
      rewrite length_skipn in H4.
      exists (firstn 8 x1), (firstn 32 x2), (firstn 4 (skipn 32 x2)),
        tracks, records, idb, nb, rest.
      splits; auto.
      * rewrite <- Hy, !firstn_skipn. exact Hin.
      * rewrite length_firstn. lia.
      * rewrite length_firstn. lia.
      * rewrite length_firstn, length_skipn. lia.
      * rewrite int8_of_byte in Hneg. pose proof (unsigned_of_byte_range nb).
        destruct (Z.ltb_spec (unsigned_of_byte nb) 128); lia.
    + intros (sizeBytes & ver & tempo & tracks & records & idb & nb & rest
              & -> & H8 & H32 & H4 & Hholds & Hlt & Hid & Hnb).
      unfold DecodeFile, os.Open. rewrite Hfile.
      set (file := io.regular (signature ++ sizeBytes ++ ver ++ tempo
                               ++ records ++ idb ++ nb :: rest)).
      destruct (decodeFuel_fuel (List.length tracks + S (io.available file))
                  file) as [Hfuel _]; [lia|].
      rewrite <- Hfuel. unfold file.
      rewrite (decodeFuel_regular sizeBytes ver tempo
                 (records ++ idb ++ nb :: rest) H8 H32 H4).
      rewrite trackLoop_holds;
        [|exact Hholds|split; [exact Hlt|apply wrap64_range]].
      cbn [trackLoop].
      destruct (Z.ltb_spec 0
                  (sub64 (sub64 (binary.decode binary.BigEndian binary.Int64
                                   sizeBytes) 32) 4 - recordsLength tracks));
        [|lia].
      unfold io.bind, io.regular. rewrite readTrack_negative_length; auto.
      rewrite int8_of_byte. pose proof (unsigned_of_byte_range nb).
      destruct (Z.ltb_spec (unsigned_of_byte nb) 128); lia.
Qed.

Lemma DecodeFile_ends_three_ways_witness :
  single_file "bad.splice" (io.regular negative_name_file) "bad.splice"
  = Some (io.regular negative_name_file)
  /\ DecodeFile (single_file "bad.splice" (io.regular negative_name_file))
       "bad.splice"
     = Panics "runtime error: makeslice: len out of range"
  /\ exists sizeBytes ver tempo tracks records idb nb rest,
       negative_name_file = signature ++ sizeBytes ++ ver ++ tempo
                            ++ records ++ idb ++ nb :: rest
       /\ List.length sizeBytes = 8%nat
       /\ List.length ver = 32%nat
       /\ List.length tempo = 4%nat
       /\ holdsRecords tracks records
       /\ recordsLength tracks
          < sub64 (sub64 (binary.decode binary.BigEndian binary.Int64
                            sizeBytes) 32) 4
       /\ List.length idb = 4%nat
       /\ 128 <= unsigned_of_byte nb.
Proof.
  split; [reflexivity|]. split; [reflexivity|].
  apply (proj1 (proj2 (proj2 (DecodeFile_ends_three_ways
                                (single_file "bad.splice"
                                   (io.regular negative_name_file))
                                "bad.splice"))
                 negative_name_file eq_refl)).
  reflexivity.
Defined.

(** X16: a header that arrives in less than six bytes is taken for a wrong
    signature, even when the bytes that follow would complete SPLICE: the
    one [Read] of [readHeader] is not repeated, and the buffer is compared
    with the zeros it was made with in the places not filled. *)
Theorem short_header_is_wrong_signature
  (fs : os.FileSystem) (path : string) (file file' : io.Reader)
  (buf : list byte) (n : nat) :
  fs path = Some file ->
  io.Read (zeros 6) file = Returns ((buf, n, nil_error), file') ->
  (n < 6)%nat ->
  DecodeFile fs path
  = Returns (None, Some (invalid_header (string_of_list_byte buf)))
  /\ skipn n buf = zeros (6 - n).
Proof.
  intros Hfile Hread Hn. split.
  - unfold DecodeFile, os.Open. rewrite Hfile.
    now rewrite (short_header_reported_as_format file file' buf n Hread Hn).
  - destruct (Read_returns file (zeros 6))
      as (bs & k & e & r & Heq & _ & _ & _ & Hsk & _).
    rewrite Hread in Heq.
    assert (bs = buf) by congruence. assert (k = n) by congruence. subst.
    now rewrite Hsk, skipn_zeros.
Qed.

Lemma short_header_is_wrong_signature_witness :
  io.Read (zeros 6)
    [io.Data (list_byte_of_string "SPL"); io.Data (list_byte_of_string "ICE")]
  = Returns ((list_byte_of_string "SPL" ++ zeros 3, 3%nat, nil_error),
             [io.Data []; io.Data (list_byte_of_string "ICE")])
  /\ DecodeFile
       (single_file "fifo"
          [io.Data (list_byte_of_string "SPL");
           io.Data (list_byte_of_string "ICE")]) "fifo"
     = Returns (None,
                Some (invalid_header
                        (string_of_list_byte
                           (list_byte_of_string "SPL" ++ zeros 3)))).
Proof.
  split; [reflexivity|].
  apply (short_header_is_wrong_signature
           (single_file "fifo"
              [io.Data (list_byte_of_string "SPL");
               io.Data (list_byte_of_string "ICE")]) "fifo"
           [io.Data (list_byte_of_string "SPL");
            io.Data (list_byte_of_string "ICE")]
           [io.Data []; io.Data (list_byte_of_string "ICE")]
           (list_byte_of_string "SPL" ++ zeros 3) 3).
  - reflexivity.
  - reflexivity.
  - lia.
Defined.

(** X17: a regular file that ends inside the name of a record the counter
    asks for.  The unchecked [Read] of the name takes what is left, and
    the read of the first step then finds the end of the file:
    [DecodeFile] returns [io.EOF], not [io.ErrUnexpectedEOF], and no
    pattern. *)
Theorem name_cut_by_end_of_file
  (fs : os.FileSystem) (path : string)
  (declared : Z) (version : string) (tempo : Z) (tracks : list Track)
  (idb : list byte) (nb : byte) (rest : list byte) :
  wellFormedVersion version ->
  0 <= tempo < 2 ^ 32 ->
  Forall wellFormedTrack tracks ->
  recordsLength tracks < declared - 36 ->
  declared <= max_int64 ->
  List.length idb = 4%nat ->
  unsigned_of_byte nb < 128 ->
  (List.length rest < Z.to_nat (unsigned_of_byte nb))%nat ->
  fs path = Some (io.regular (layoutFile declared version tempo tracks
                              ++ idb ++ nb :: rest)) ->
  DecodeFile fs path = Returns (None, Some EOF).
Proof.
  intros Hv Ht Hwf Hd Hmax Hid Hnb Hrest Hfile.
  unfold DecodeFile, os.Open. rewrite Hfile.
  rewrite (decode_asks_for_more declared version tempo tracks).
  rewrite (decodeFuel_asks_for_more declared version tempo tracks)
    by assumption.
  cbn [trackLoop].
  assert (Hnn : 0 <= recordsLength tracks).
  { clear. induction tracks as [|t ts IH]; cbn [recordsLength];
      unfold recordLength; lia. }
  destruct (Z.ltb_spec 0 (declared - 36 - recordsLength tracks)); [|lia].
  unfold io.bind.
  pose proof (unsigned_of_byte_range nb) as Hr.
  assert (Hn8 : binary.decode binary.LittleEndian binary.Int8 [nb]
                = unsigned_of_byte nb).
  { rewrite int8_of_byte.
    destruct (Z.ltb_spec (unsigned_of_byte nb) 128); lia. }
  destruct (short_name_on_regular_file
              (declared - 36 - recordsLength tracks) idb nb rest)
    as [size' Heq]; [exact Hid|rewrite Hn8; lia|now rewrite Hn8|].
  rewrite Heq. reflexivity.
Qed.

Lemma name_cut_by_end_of_file_witness :
  single_file "cut.splice" (io.regular (firstn 57 kick_file)) "cut.splice"
  = Some (io.regular
            (layoutFile 61 "0.808-alpha" 1123024896 []
             ++ [x00; x00; x00; x00] ++ x04 :: [x6b; x69]))
  /\ DecodeFile (single_file "cut.splice" (io.regular (firstn 57 kick_file)))
       "cut.splice" = Returns (None, Some EOF).
Proof.
  split; [reflexivity|].
  apply (name_cut_by_end_of_file _ "cut.splice"
           61 "0.808-alpha" 1123024896 []
           [x00; x00; x00; x00] x04 [x6b; x69]).
  - split; [cbn; lia|]. split; discriminate.
  - lia.
  - constructor.
  - cbn. lia.
  - unfold max_int64. lia.
  - reflexivity.
  - cbn. lia.
  - cbn. lia.
  - reflexivity.
Defined.

(** * A declared size near the least int64 *)

Lemma wrap64_below (z : Z) :
  min_int64 - 2 ^ 63 <= z < min_int64 -> wrap64 z = z + 2 ^ 64.
Proof.
  unfold min_int64, wrap64, signed.
  change (2 ^ (64 - 1)) with 9223372036854775808.
  change (2 ^ 63) with 9223372036854775808.
  change (2 ^ 64) with 18446744073709551616.
  intros Hz.
  rewrite <- (Z_mod_plus_full z 1), Z.mod_small by lia.
  destruct (Z.ltb_spec (z + 1 * 18446744073709551616) 9223372036854775808);
    lia.
Qed.

Lemma seed_wraps (declared : Z) :
  min_int64 <= declared < min_int64 + 36 ->
  sub64 (sub64 declared 32) 4 = declared - 36 + 2 ^ 64.
Proof.
  intros Hd. unfold sub64.
  destruct (Z_lt_le_dec declared (min_int64 + 32)) as [Hlow|Hhigh].
  - rewrite (wrap64_below (declared - 32))
      by (unfold min_int64 in *; lia).
    rewrite wrap64_small by (unfold min_int64, max_int64 in *; lia). lia.
  - rewrite (wrap64_small (declared - 32))
      by (unfold min_int64, max_int64 in *; lia).
    rewrite wrap64_below by (unfold min_int64 in *; lia). lia.
Qed.

(** X18: the two subtractions from the declared size wrap around.  A
    declared size within 36 of the least int64 leaves a positive counter,
    so the loop does read: a file that ends after the tempo, which decodes
    to no tracks for every other size up to 36, gives [io.EOF] here. *)
Theorem wrapped_size_runs_loop
  (fs : os.FileSystem) (path : string)
  (declared : Z) (version : string) (tempo : Z) :
  wellFormedVersion version ->
  0 <= tempo < 2 ^ 32 ->
  min_int64 <= declared < min_int64 + 36 ->
  fs path = Some (io.regular (layoutFile declared version tempo [])) ->
  0 < sub64 (sub64 declared 32) 4
  /\ DecodeFile fs path = Returns (None, Some EOF).
Proof.
  intros (Hvl & Hvh & Hvt) Htempo Hd Hfile.
  assert (Hseed : 0 < sub64 (sub64 declared 32) 4).
  { rewrite seed_wraps by exact Hd. unfold min_int64 in Hd.
    change (2 ^ 63) with 9223372036854775808 in Hd.
    change (2 ^ 64) with 18446744073709551616. lia. }
  split; [exact Hseed|].
  unfold DecodeFile, os.Open. rewrite Hfile.
  unfold decode, layoutFile. cbn [map List.concat].
  rewrite decodeFuel_regular;
    [|now rewrite putUint_length|now apply layoutVersion_length
     |now rewrite putUint_length].
  rewrite decode_put_int64 by (unfold min_int64, max_int64 in *; lia).
  cbn [trackLoop].
  destruct (Z.ltb_spec 0 (sub64 (sub64 declared 32) 4)); [|lia].
  reflexivity.
Qed.

Lemma wrapped_size_runs_loop_witness :
  single_file "min.splice"
    (io.regular (layoutFile min_int64 "0.808-alpha" 1123024896 []))
    "min.splice"
  = Some (io.regular (layoutFile min_int64 "0.808-alpha" 1123024896 []))
  /\ DecodeFile
       (single_file "min.splice"
          (io.regular (layoutFile min_int64 "0.808-alpha" 1123024896 [])))
       "min.splice" = Returns (None, Some EOF).
Proof.
  split; [reflexivity|].
  apply (wrapped_size_runs_loop _ "min.splice"
           min_int64 "0.808-alpha" 1123024896).
  - split; [cbn; lia|]. split; discriminate.
  - lia.
  - unfold min_int64. lia.
  - reflexivity.
Defined.

(** * An error of the device at the name *)

(** X19: an error of the read of the name is never reported.  When the
    device fails at the [Read] of the name and works again afterwards,
    [readTrack] returns a track with a nil error: its name is all zero
    bytes and its steps are the sixteen bytes delivered next. *)
Theorem name_read_error_ignored
  (size : Z) (idb : list byte) (nb : byte) (stepBytes more : list byte)
  (r : io.Reader) :
  List.length idb = 4%nat ->
  1 <= unsigned_of_byte nb <= 127 ->
  List.length stepBytes = 16%nat ->
  io.Read (zeros (Z.to_nat (unsigned_of_byte nb)))
    (io.Fault :: io.Data (stepBytes ++ more) :: r)
  = Returns ((zeros (Z.to_nat (unsigned_of_byte nb)), O, Some EIO),
             io.Data (stepBytes ++ more) :: r)
  /\ readTrack size
       (io.Data (idb ++ [nb]) :: io.Fault :: io.Data (stepBytes ++ more) :: r)
     = Returns ((Some {| ID := binary.decode binary.LittleEndian
                                 binary.Int32 idb;
                         Name := string_of_list_byte
                                   (zeros (Z.to_nat (unsigned_of_byte nb)));
                         Steps := map stepActive stepBytes |},
                 nil_error, afterRecord size (unsigned_of_byte nb)),
                io.Data more :: r).
Proof.
  intros Hid Hnb Hsteps.
  assert (Hn8 : binary.decode binary.LittleEndian binary.Int8 [nb]
                = unsigned_of_byte nb).
  { rewrite int8_of_byte.
    destruct (Z.ltb_spec (unsigned_of_byte nb) 128); lia. }
  assert (Hz : exists k, Z.to_nat (unsigned_of_byte nb) = S k).
  { exists (Nat.pred (Z.to_nat (unsigned_of_byte nb))). lia. }
  destruct Hz as [k Hk].
  assert (Hread :
    io.Read (zeros (Z.to_nat (unsigned_of_byte nb)))
      (io.Fault :: io.Data (stepBytes ++ more) :: r)
    = Returns ((zeros (Z.to_nat (unsigned_of_byte nb)), O, Some EIO),
               io.Data (stepBytes ++ more) :: r)).
  { rewrite Hk. reflexivity. }
  split; [exact Hread|].
  unfold readTrack, io.bind.
  rewrite binary_Read_prefix by exact Hid.
  rewrite <- (app_nil_r [nb]) at 1.
  rewrite binary_Read_prefix by reflexivity.
  rewrite Hn8. unfold make.
  destruct (Z.ltb_spec (unsigned_of_byte nb) 0); [lia|].
  cbn [io.ret].
  assert (Hskip :
    io.Read (zeros (Z.to_nat (unsigned_of_byte nb)))
      (io.Data [] :: io.Fault :: io.Data (stepBytes ++ more) :: r)
    = io.Read (zeros (Z.to_nat (unsigned_of_byte nb)))
        (io.Fault :: io.Data (stepBytes ++ more) :: r)).
  { rewrite Hk. reflexivity. }
  rewrite Hskip, Hread.
  rewrite stepsLoop_prefix; [|exact Hsteps|rewrite repeat_length; lia].
  cbn [firstn app]. rewrite skipn_all2 by (rewrite repeat_length; lia).
  rewrite app_nil_r. reflexivity.
Qed.

Lemma name_read_error_ignored_witness :
  1 <= unsigned_of_byte x04 <= 127
  /\ readTrack 25
       [io.Data ([x07; x00; x00; x00] ++ [x04]); io.Fault;
        io.Data (map stepByte kick_steps ++ [x2a])]
     = Returns ((Some {| ID := 7;
                         Name := string_of_list_byte (zeros 4);
                         Steps := kick_steps |}, nil_error, 0),
                [io.Data [x2a]]).
Proof.
  split; [cbn; lia|].
  apply (proj2 (name_read_error_ignored 25 [x07; x00; x00; x00] x04
                  (map stepByte kick_steps) [x2a] [] eq_refl
                  ltac:(cbn; lia) eq_refl)).
Defined.
